(** * Gateway and agent core: a shallow embedding and its properties

    The development follows the repository module by module:

    - [Text]: the Python string operations the code relies on
      ([str.strip], [str.startswith], [str.split], [str.join], [str.rfind]);
    - [Re]: the handful of regular expressions of the repository, each written
      as a matcher that reproduces what Python's backtracking engine does for
      that pattern, and the two scanners [finditer] and [sub];
    - [Json]: decoded JSON values, the shape of every message and model reply;
    - [Qwen3]: [images/gateway/adapters/qwen3.py];
    - [ContentFilters]: [images/gateway/contentfilters.py];
    - [Nodes] and [Graph]: [images/agent/nodes/*.py] and
      [images/agent/graph.py].

    Text is a list of characters; characters are the code points below 256. *)

From Stdlib Require Import Ascii String List Bool Arith ZArith Lia.
From Stdlib Require Import DecimalString DecimalNat.
From Stdlib Require QArith.
From stdpp Require Import base option gmap strings list fin_maps.
Import ListNotations.

Local Open Scope list_scope.

(** ** Text *)

Module Text.

Abbreviation str := (list ascii).

(** String literals of the source are written [lit "..."]. *)
Definition lit (s : string) : str := list_ascii_of_string s.

Definition newline : ascii := ascii_of_nat 10.

(** [str.isspace] on one character (code points below 256). *)
Definition isspace (c : ascii) : bool :=
  let n := nat_of_ascii c in
  ((9 <=? n) && (n <=? 13)) || ((28 <=? n) && (n <=? 32))
  || (n =? 133) || (n =? 160).

(** The class [\w] of a [str] pattern: alphanumeric or underscore. *)
Definition isword (c : ascii) : bool :=
  let n := nat_of_ascii c in
  ((48 <=? n) && (n <=? 57)) || ((65 <=? n) && (n <=? 90)) || (n =? 95)
  || ((97 <=? n) && (n <=? 122))
  || (n =? 170) || (n =? 178) || (n =? 179) || (n =? 181) || (n =? 185)
  || (n =? 186) || ((188 <=? n) && (n <=? 190))
  || ((192 <=? n) && (n <=? 214)) || ((216 <=? n) && (n <=? 246))
  || (248 <=? n).

Definition eqc (a b : ascii) : bool := Ascii.eqb a b.
Global Arguments eqc : simpl never.

(** [s.lstrip()], [s.rstrip()], [s.strip()]. *)
Fixpoint lstrip (s : str) : str :=
  match s with
  | c :: s' => if isspace c then lstrip s' else s
  | [] => []
  end.

Definition rstrip (s : str) : str := rev (lstrip (rev s)).

Definition strip (s : str) : str := rstrip (lstrip s).

(** [s.startswith(p)]: when [p] is a prefix of [s], what follows it. *)
Fixpoint strip_prefix (p s : str) : option str :=
  match p, s with
  | [], _ => Some s
  | a :: p', b :: s' => if eqc a b then strip_prefix p' s' else None
  | _ :: _, [] => None
  end.

Definition startswith (s p : str) : bool :=
  match strip_prefix p s with Some _ => true | None => false end.

(** [p in s] for strings: some suffix of [s] starts with [p]. *)
Fixpoint contains (p s : str) : bool :=
  startswith s p
  || match s with
     | [] => false
     | _ :: s' => contains p s'
     end.

(** [s.split("\n")]: never empty, the last piece is what follows the last
    newline. *)
Fixpoint split_lines (s : str) : list str :=
  match s with
  | [] => [[]]
  | c :: s' =>
      if eqc c newline then [] :: split_lines s'
      else match split_lines s' with
           | l :: ls => (c :: l) :: ls
           | [] => [[c]]
           end
  end.

(** ["\n".join(ls)]. *)
Fixpoint join_lines (ls : list str) : str :=
  match ls with
  | [] => []
  | [l] => l
  | l :: ls' => l ++ newline :: join_lines ls'
  end.

(** [sep.join(ls)] for an arbitrary separator. *)
Fixpoint join (sep : str) (ls : list str) : str :=
  match ls with
  | [] => []
  | [l] => l
  | l :: ls' => l ++ sep ++ join sep ls'
  end.

(** The pair [(s[:i+1], s[i+1:])] for [i = s.rfind("\n")], or [None] when
    [rfind] answers [-1]. *)
Fixpoint rsplit_newline (s : str) : option (str * str) :=
  match s with
  | [] => None
  | c :: s' =>
      match rsplit_newline s' with
      | Some (ready, rest) => Some (c :: ready, rest)
      | None => if eqc c newline then Some ([c], s') else None
      end
  end.

(** [str(n)] for a natural number. *)
Definition str_of_nat (n : nat) : str :=
  lit (NilEmpty.string_of_uint (Nat.to_uint n)).

(** [str(z)] for an integer. *)
Definition str_of_Z (z : Z) : str :=
  lit (NilZero.string_of_int (Z.to_int z)).

(** [s.lower()]. *)
Definition lower_char (c : ascii) : ascii :=
  let n := nat_of_ascii c in
  if ((65 <=? n) && (n <=? 90))
     || ((192 <=? n) && (n <=? 222) && negb (n =? 215))
  then ascii_of_nat (n + 32) else c.

Definition lower (s : str) : str := map lower_char s.

End Text.

Export Text.

(** ** Regular expressions

    A compiled pattern is seen through the one question the scanners ask of
    it: does it match at this position?  The position is given as the
    character before it (for look-behind) and the text from it on; the answer
    is the captured groups and the text left after the match.  Every pattern
    of the repository consumes at least one character when it matches. *)

Module Re.

Definition pattern : Type := option ascii -> str -> option (list str * str).

(** One step of the left-to-right scan: a character outside every match,
    or a match with its groups. *)
Inductive piece :=
| Lit (c : ascii)
| Hit (groups : list str).

(** The non-overlapping matches of [p], leftmost first.  [skip] counts the
    characters of the current match still to be passed over; [prev] is the
    character before the current position. *)
Fixpoint scan (p : pattern) (prev : option ascii) (skip : nat) (s : str)
  : list piece :=
  match s with
  | [] => []
  | c :: s' =>
      match skip with
      | S k => scan p (Some c) k s'
      | 0 =>
          match p prev s with
          | Some (g, rest) =>
              Hit g :: scan p (Some c) (length s' - length rest) s'
          | None => Lit c :: scan p (Some c) 0 s'
          end
      end
  end.

(** [p.finditer(s)], each match given by its groups. *)
Definition finditer (p : pattern) (s : str) : list (list str) :=
  omap (fun x => match x with Hit g => Some g | Lit _ => None end)
       (scan p None 0 s).

(** [p.sub(repl, s)], the replacement computed from the groups. *)
Definition sub (p : pattern) (repl : list str -> str) (s : str) : str :=
  concat (map (fun x => match x with Hit g => repl g | Lit c => [c] end)
              (scan p None 0 s)).

(** A pattern without look-behind: what comes before the position does
    not matter. *)
Definition blind (p : pattern) : Prop :=
  forall (a b : option ascii) (s : str), p a s = p b s.

(** [group(i)], groups numbered from 1. *)
Definition group (i : nat) (g : list str) : str := nth (i - 1) g [].

(** *** Pattern pieces *)

(** [[^>]+] followed by [>]: the longest run of characters other than [>],
    not empty, and the text after the closing [>]. *)
Fixpoint until_gt (s : str) : option (str * str) :=
  match s with
  | [] => None
  | c :: s' =>
      if eqc c ">" then Some ([], s')
      else match until_gt s' with
           | Some (run, rest) => Some (c :: run, rest)
           | None => None
           end
  end.

Definition name_then_gt (s : str) : option (str * str) :=
  match until_gt s with
  | Some ((_ :: _) as run, rest) => Some (run, rest)
  | _ => None
  end.

(** [(.*?)] followed by the literal [close]: the text up to the first
    occurrence of [close], and the text after it.  Without [DOTALL] the dot
    does not cross a newline. *)
Fixpoint lazy_until (dotall : bool) (close : str) (s : str)
  : option (str * str) :=
  match strip_prefix close s with
  | Some rest => Some ([], rest)
  | None =>
      match s with
      | [] => None
      | c :: s' =>
          if negb dotall && eqc c newline then None
          else match lazy_until dotall close s' with
               | Some (body, rest) => Some (c :: body, rest)
               | None => None
               end
      end
  end.

(** [(.+?)] followed by [close]: as above with at least one character. *)
Definition lazy1_until (dotall : bool) (close : str) (s : str)
  : option (str * str) :=
  match s with
  | [] => None
  | c :: s' =>
      if negb dotall && eqc c newline then None
      else match lazy_until dotall close s' with
           | Some (body, rest) => Some (c :: body, rest)
           | None => None
           end
  end.

(** [<tag=([^>]+)>(.*?)</tag>] with [DOTALL]. *)
Definition tagged_block (tag : str) : pattern := fun _ s =>
  s1 ← strip_prefix (lit "<" ++ tag ++ lit "=") s;
  '(name, s2) ← name_then_gt s1;
  '(body, s3) ← lazy_until true (lit "</" ++ tag ++ lit ">") s2;
  Some ([name; body], s3).

(** [open(.+?)close] without [DOTALL], as in the bold patterns. *)
Definition delimited (opening closing : str) : pattern := fun _ s =>
  s1 ← strip_prefix opening s;
  '(inner, s2) ← lazy1_until false closing s1;
  Some ([inner], s2).

(** The tail of an italic match once at least one character of the group
    is taken: [last] is the last character taken.  The group stops at the
    first marker [m] that does not follow whitespace and is not followed
    by a word character. *)
Fixpoint italic_tail (m : ascii) (last : ascii) (s : str)
  : option (str * str) :=
  match s with
  | [] => None
  | c :: s' =>
      if eqc c m && negb (isspace last)
         && match s' with d :: _ => negb (isword d) | [] => true end
      then Some ([], s')
      else if eqc c newline then None
      else match italic_tail m c s' with
           | Some (inner, rest) => Some (c :: inner, rest)
           | None => None
           end
  end.

(** [(?<!\w)m(?!\s)(.+?)(?<!\s)m(?!\w)] for a marker character [m]. *)
Definition italic (m : ascii) : pattern := fun prev s =>
  match prev with
  | Some b => if isword b then None else Some tt
  | None => Some tt
  end ≫= fun _ =>
  match s with
  | c :: d :: s' =>
      if eqc c m && negb (isspace d) then
        '(inner, rest) ← italic_tail m d s';
        Some ([d :: inner], rest)
      else None
  | _ => None
  end.

(** [<think>.*?</think>] with [DOTALL]: no group. *)
Definition think_block : pattern := fun _ s =>
  s1 ← strip_prefix (lit "<think>") s;
  '(_, s2) ← lazy_until true (lit "</think>") s1;
  Some ([], s2).

(** An optional literal, taken whenever it is there. *)
Definition optional (p s : str) : str :=
  match strip_prefix p s with Some rest => rest | None => s end.

(** The pattern [```(?:json)?\n?] of the reply parsers. *)
Definition code_fence : pattern := fun _ s =>
  s1 ← strip_prefix (lit "```") s;
  Some ([], optional [newline] (optional (lit "json") s1)).

(** The longest run of the character [c] at the head of [s], as its length
    and what follows. *)
Fixpoint run_of (c : ascii) (s : str) : nat * str :=
  match s with
  | d :: s' =>
      if eqc d c then let '(n, rest) := run_of c s' in (S n, rest)
      else (0, s)
  | [] => (0, [])
  end.

(** The pattern [_HORIZONTAL_RULE] tried with [match] at the start of a
    line: blanks, one of the three rule characters [-], [*], [_], at least
    two more of the same, blanks to the end. *)
Definition horizontal_rule (line : str) : bool :=
  match lstrip line with
  | c :: s =>
      (eqc c "-" || eqc c "*" || eqc c "_")
      && let '(n, rest) := run_of c s in
         (2 <=? n) && forallb isspace rest
  | [] => false
  end.

End Re.

(** ** Decoded JSON values

    Messages of the runtime, model replies once decoded, and the values kept
    in the orchestration state are all of this shape.  A Python [float] is
    represented by the rational it denotes; a [dict] nested in a value keeps
    its insertion order. *)

Module Json.

#[warnings="-register-all"] Inductive json :=
| JNull
| JBool (b : bool)
| JInt (z : Z)
| JFloat (q : QArith_base.Q)
| JStr (s : str)
| JArr (l : list json)
| JObj (kv : list (str * json)).

(** Python truth value. *)
Definition truthy (v : json) : bool :=
  match v with
  | JNull => false
  | JBool b => b
  | JInt z => negb (z =? 0)%Z
  | JFloat q => negb (QArith_base.Qnum q =? 0)%Z
  | JStr s => match s with [] => false | _ => true end
  | JArr l => match l with [] => false | _ => true end
  | JObj kv => match kv with [] => false | _ => true end
  end.

(** [a or b]. *)
Definition py_or (a b : json) : json := if truthy a then a else b.

(** [d.get(k)] on a nested dict. *)
Fixpoint dict_get (k : str) (d : list (str * json)) : option json :=
  match d with
  | [] => None
  | (k', v) :: d' => if decide (k = k') then Some v else dict_get k d'
  end.

(** [d[k] = v] on a nested dict: an existing key keeps its place. *)
Fixpoint dict_set (k : str) (v : json) (d : list (str * json))
  : list (str * json) :=
  match d with
  | [] => [(k, v)]
  | (k', v') :: d' =>
      if decide (k = k') then (k, v) :: d' else (k', v') :: dict_set k v d'
  end.

(** The exceptions the modelled code can raise. *)
Inductive exn :=
| JSONDecodeError
| ValueError
| TypeError
| AttributeError
| OverflowError
| GraphRecursionError.

(** Code that reads and writes a state of type [S] and may raise: the
    outcome and the state afterwards.  A raised exception keeps the effects
    that came before it. *)
Definition M (S A : Type) : Type := S -> (exn + A) * S.

Definition ret {S A} (a : A) : M S A := fun s => (inr a, s).
Definition raise {S A} (e : exn) : M S A := fun s => (inl e, s).
Definition bind {S A B} (m : M S A) (k : A -> M S B) : M S B := fun s =>
  match m s with
  | (inr a, s') => k a s'
  | (inl e, s') => (inl e, s')
  end.

(** [try: m except handled: fallback]. *)
Definition try_except {S A} (m : M S A) (handled : exn -> bool)
    (fallback : M S A) : M S A := fun s =>
  match m s with
  | (inl e, s') => if handled e then fallback s' else (inl e, s')
  | r => r
  end.

End Json.

Export Json.

Notation "'let!' x ':=' m 'in' k" := (bind m (fun x => k))
  (at level 10, x pattern, m at level 100, k at level 200).

(** ** The Python store

    Message dicts are mutable objects: a message is a reference into a store
    of dicts.  [dict(m)] allocates, [m[k] = v] updates in place, and a
    function that hands back its argument hands back the same reference. *)

Module Store.

Abbreviation loc := positive.
Abbreviation pydict := (gmap str json).
Abbreviation heap := (gmap loc pydict).

(** A computation over the store that may raise. *)
Abbreviation Py := (M heap).

(** [m.get(k)]. *)
Definition dict_lookup (m : loc) (k : str) : Py (option json) := fun h =>
  (inr (h !! m ≫= fun d => d !! k), h).

(** [dict(m)]: a new dict with the entries of [m]. *)
Definition dict_copy (m : loc) : Py loc := fun h =>
  let r := fresh (dom h : gset loc) in
  (inr r, <[r := default ∅ (h !! m)]> h).

(** [m[k] = v]. *)
Definition dict_setitem (m : loc) (k : str) (v : json) : Py unit := fun h =>
  (inr tt, alter (fun d => <[k := v]> d) m h).

End Store.

Export Store.


(** ** images/gateway/adapters/qwen3.py *)

Module Qwen3.

(** [_THINK_BLOCK], [_FUNCTION_BLOCK], [_PARAMETER]. *)
Definition _THINK_BLOCK : Re.pattern := Re.think_block.
Definition _FUNCTION_BLOCK : Re.pattern := Re.tagged_block (lit "function").
Definition _PARAMETER : Re.pattern := Re.tagged_block (lit "parameter").

Definition empty_repl : list str -> str := fun _ => [].

(** One entry of the list [_parse_xml_tool_calls] returns: the dict
    [{"name": name, "arguments": args}]. *)
Record xml_call := { name : str; arguments : list (str * json) }.

(** The inner loop: [args[param.group(1).strip()] = param.group(2)]. *)
Definition parse_parameters (body : str) : list (str * json) :=
  fold_left
    (fun args param =>
       dict_set (strip (Re.group 1 param)) (JStr (Re.group 2 param)) args)
    (Re.finditer _PARAMETER body) [].

Definition _parse_xml_tool_calls (text : str) : list xml_call * str :=
  let calls :=
    map (fun m => {| name := strip (Re.group 1 m);
                     arguments := parse_parameters (Re.group 2 m) |})
        (Re.finditer _FUNCTION_BLOCK text) in
  let cleaned := strip (Re.sub _FUNCTION_BLOCK empty_repl text) in
  (calls, cleaned).

Definition _strip_think_tags (text : str) : str :=
  strip (Re.sub _THINK_BLOCK empty_repl text).

(** [_strip_think_tags] applied to a value of the message: the pattern
    accepts strings only. *)
Definition strip_think_value (v : json) : Py str :=
  match v with
  | JStr s => ret (_strip_think_tags s)
  | _ => raise TypeError
  end.

(** The name a structured call carries: [call["function"]["name"]]. *)
Definition call_name (call : json) : option str :=
  match call with
  | JObj kv =>
      match dict_get (lit "function") kv with
      | Some (JObj f) =>
          match dict_get (lit "name") f with
          | Some (JStr n) => Some n
          | _ => None
          end
      | _ => None
      end
  | _ => None
  end.

(** Modelled from the spec: [ModelAdapter._filter_hallucinated] of
    [adapters/base.py], which is not among the sources.  The spec (4.3):
    given a sequence of structured tool calls and a valid-name set, return
    only the calls whose name is a member of the set, preserving relative
    order; if the valid-name set is empty, filtering is a no-op.  The
    repository's tests add that with an empty set the argument itself is
    handed back.  The spec speaks of sequences only; on any other value the
    model raises. *)
Definition _filter_hallucinated (tool_calls : json) (valid_names : gset str)
  : Py json :=
  if decide (valid_names = ∅) then ret tool_calls
  else match tool_calls with
       | JArr calls =>
           ret (JArr (List.filter
                        (fun c => match call_name c with
                                  | Some n => bool_decide (n ∈ valid_names)
                                  | None => false
                                  end) calls))
       | _ => raise TypeError
       end.

(** The dict appended to [recovered] for one parsed call. *)
Definition recovered_call (call : xml_call) : json :=
  JObj [(lit "function",
         JObj [(lit "name", JStr (name call));
               (lit "arguments", JObj (arguments call))])].

(** The loop over [parsed]: calls whose name is in the valid set. *)
Definition recover (parsed : list xml_call) (valid_names : gset str)
  : list json :=
  map recovered_call
      (List.filter (fun c => bool_decide (name c ∈ valid_names)) parsed).

(** [a != b] where [a] is a string. *)
Definition str_ne (a : str) (b : json) : bool :=
  match b with
  | JStr s => negb (bool_decide (a = s))
  | _ => true
  end.

(** [Qwen3Adapter.normalize_tool_calls].  In the source the variable
    [content] is rebound to the stripped text; here [original] is the value
    read from the message and [content] the text compared with it at the
    end. *)
Definition normalize_tool_calls (ollama_msg : loc) (valid_names : gset str)
  : Py loc :=
  let! c0 := dict_lookup ollama_msg (lit "content") in
  let original := py_or (default (JStr []) c0) (JStr []) in
  let! t0 := dict_lookup ollama_msg (lit "tool_calls") in
  let tool_calls := py_or (default JNull t0) (JArr []) in
  if truthy tool_calls then
    let! result := dict_copy ollama_msg in
    let! kept := _filter_hallucinated tool_calls valid_names in
    let! _ := dict_setitem result (lit "tool_calls") kept in
    let! stripped := strip_think_value original in
    let! _ := dict_setitem result (lit "content") (JStr stripped) in
    ret result
  else
    let no_recovery (content : str) : Py loc :=
      if str_ne content original then
        let! result := dict_copy ollama_msg in
        let! _ := dict_setitem result (lit "content") (JStr content) in
        ret result
      else ret ollama_msg in
    if truthy original then
      let! content := strip_think_value original in
      let '(parsed, cleaned) := _parse_xml_tool_calls content in
      let recovered := recover parsed valid_names in
      match parsed, recovered with
      | _ :: _, _ :: _ =>
          let! result := dict_copy ollama_msg in
          let! _ := dict_setitem result (lit "tool_calls") (JArr recovered) in
          let! _ := dict_setitem result (lit "content") (JStr cleaned) in
          ret result
      | _, _ => no_recovery content
      end
    else no_recovery [].

(** An [AIMessage] of the agent path: its content and its tool calls,
    each the dict [{"name": .., "args": .., "id": ..}]. *)
Record AIMessage := { content : json; tool_calls : list json }.

(** What a method returning a message hands back: its argument, or a
    message it built. *)
Inductive returned :=
| SameMessage
| NewMessage (m : AIMessage).

(** The loop of [normalize_ai_message]: every parsed call is appended with
    the id [recovered_<len(tool_calls)>]. *)
Definition recovered_ai_calls (parsed : list xml_call) : list json :=
  fold_left
    (fun tool_calls call =>
       tool_calls ++
       [JObj [(lit "name", JStr (name call));
              (lit "args", JObj (arguments call));
              (lit "id",
               JStr (lit "recovered_" ++ str_of_nat (length tool_calls)))]])
    parsed [].

(** [Qwen3Adapter.normalize_ai_message]. *)
Definition normalize_ai_message (message : AIMessage) : exn + returned :=
  let original := py_or (content message) (JStr []) in
  match tool_calls message with
  | _ :: _ =>
      match original with
      | JStr c =>
          let stripped := _strip_think_tags c in
          if bool_decide (stripped = c) then inr SameMessage
          else inr (NewMessage {| content := JStr stripped;
                                  tool_calls := tool_calls message |})
      | _ => inl TypeError
      end
  | [] =>
      if negb (truthy original) then inr SameMessage
      else
        match original with
        | JStr c =>
            let content := _strip_think_tags c in
            let '(parsed, cleaned) := _parse_xml_tool_calls content in
            match parsed with
            | [] =>
                if bool_decide (content = c) then inr SameMessage
                else inr (NewMessage {| content := JStr content;
                                        tool_calls := [] |})
            | _ :: _ =>
                inr (NewMessage {| content := JStr cleaned;
                                   tool_calls := recovered_ai_calls parsed |})
            end
        | _ => inl TypeError
        end
  end.

End Qwen3.

(** ** images/gateway/contentfilters.py *)

Module ContentFilters.

(** [_BOLD], [_BOLD_UNDER], [_ITALIC], [_ITALIC_UNDER]. *)
Definition _BOLD : Re.pattern := Re.delimited (lit "**") (lit "**").
Definition _BOLD_UNDER : Re.pattern := Re.delimited (lit "__") (lit "__").
Definition _ITALIC : Re.pattern := Re.italic "*".
Definition _ITALIC_UNDER : Re.pattern := Re.italic "_".

(** The state of a [GooseFilter]. *)
Record GooseFilter := { _buffer : str; _in_fence : bool }.

(** [GooseFilter()]. *)
Definition new_filter : GooseFilter := {| _buffer := []; _in_fence := false |}.

(** [_transform_line]: the line returned and the fence state after it. *)
Definition _transform_line (line : str) (in_fence : bool) : str * bool :=
  let stripped := strip line in
  if startswith stripped (lit "```") then (line, negb in_fence)
  else if in_fence then (line, in_fence)
  else if Re.horizontal_rule line then ([], in_fence)
  else
    let line := Re.sub _BOLD (Re.group 1) line in
    let line := Re.sub _BOLD_UNDER (Re.group 1) line in
    let line := Re.sub _ITALIC (Re.group 1) line in
    let line := Re.sub _ITALIC_UNDER (Re.group 1) line in
    (line, in_fence).

(** The loop of [_transform]: every line goes through [_transform_line]
    except an empty last one. *)
Fixpoint transform_lines (lines : list str) (in_fence : bool)
  : list str * bool :=
  match lines with
  | [] => ([], in_fence)
  | [line] =>
      match line with
      | [] => ([line], in_fence)
      | _ => let '(l, f) := _transform_line line in_fence in ([l], f)
      end
  | line :: rest =>
      let '(l, f) := _transform_line line in_fence in
      let '(out, f') := transform_lines rest f in
      (l :: out, f')
  end.

(** The same loop without the exception: [_transform_line] over the lines,
    the fence state threaded.  It is what [transform_lines] does to every
    complete line. *)
Fixpoint thread (lines : list str) (in_fence : bool) : list str * bool :=
  match lines with
  | [] => ([], in_fence)
  | line :: rest =>
      let '(l, f) := _transform_line line in_fence in
      let '(out, f') := thread rest f in
      (l :: out, f')
  end.

Definition _transform (text : str) (in_fence : bool) : str * bool :=
  let '(out, f) := transform_lines (split_lines text) in_fence in
  (join_lines out, f).

(** [feed]: the text to emit and the filter afterwards. *)
Definition feed (self : GooseFilter) (text : str) : str * GooseFilter :=
  let buffer := _buffer self ++ text in
  match rsplit_newline buffer with
  | None => ([], {| _buffer := buffer; _in_fence := _in_fence self |})
  | Some (ready, rest) =>
      let '(out, f) := _transform ready (_in_fence self) in
      (out, {| _buffer := rest; _in_fence := f |})
  end.

(** [flush]. *)
Definition flush (self : GooseFilter) : str * GooseFilter :=
  match _buffer self with
  | [] => ([], self)
  | remaining =>
      let '(out, f) := _transform remaining (_in_fence self) in
      (out, {| _buffer := []; _in_fence := f |})
  end.

(** A streaming response: the chunks are fed in order, then the filter is
    flushed; what the client receives is the concatenation. *)
Fixpoint feed_all (self : GooseFilter) (chunks : list str)
  : str * GooseFilter :=
  match chunks with
  | [] => ([], self)
  | chunk :: rest =>
      let '(out, self') := feed self chunk in
      let '(outs, self'') := feed_all self' rest in
      (out ++ outs, self'')
  end.

Definition stream (self : GooseFilter) (chunks : list str) : str :=
  let '(out, self') := feed_all self chunks in
  out ++ fst (flush self').

End ContentFilters.

(** ** images/agent/nodes/*.py

    The nodes reach the outside world through collaborators: the completion
    runtime, the vector store and the web.  [W] is the state of that world.
    A prompt is kept as its template and the values formatted into it; a
    model is named by the environment variable that selects it.  The
    completion client is taken at its word: it answers with text. *)

Module Nodes.

Inductive model :=
| INTERPRETER_MODEL
| ORCHESTRATOR_MODEL
| SYNTHESIS_MODEL
| CRITIC_MODEL.

Inductive prompt :=
| INTENT_PROMPT (message : json)
| DECISION_PROMPT (message intent_type entities inferred_url : json)
| SYNTHESIS_PROMPT (message research_summary : json) (rag_context : str)
| CRITIC_PROMPT (message draft_response research_summary : json).

(** What [ingest_node] finds out from the crawl. *)
Inductive ingest_outcome :=
| NoUrl
| Indexed (pages_indexed : Z) (url collection_name : str)
| CrawlFailed (url error : str).

Record collaborators (W : Type) := {
  (** [OllamaClient().generate(prompt, model=...)] *)
  generate : model -> prompt -> W -> str * W;
  (** [json.loads]; [None] stands for [JSONDecodeError] *)
  json_loads : str -> option json;
  (** [float(s)] on a string; [None] stands for [ValueError] *)
  float_of_str : str -> option QArith_base.Q;
  (** [str(v)] on values other than strings and integers *)
  repr : json -> str;
  (** the vector-store and web searches of [research_node] *)
  gather : json -> json -> W -> list json * W;
  (** [_summarize_results] on a non-empty result list *)
  summarize : list json -> json -> W -> str * W;
  (** the context lines [synthesis_node] keeps from the results *)
  rag_context : json -> str;
  (** [_extract_sources] *)
  extract_sources : json -> json;
  (** URL resolution, crawl and indexing of [ingest_node] *)
  ingest : json -> json -> json -> W -> ingest_outcome * W
}.

Arguments generate {W}.
Arguments json_loads {W}.
Arguments float_of_str {W}.
Arguments repr {W}.
Arguments gather {W}.
Arguments summarize {W}.
Arguments rag_context {W}.
Arguments extract_sources {W}.
Arguments ingest {W}.

(** The graph state [AgentState] and what a node returns. *)
Abbreviation AgentState := (gmap str json).

(** A request in flight: the world and the completion calls made so far,
    latest first. *)
Record world (W : Type) := { outside : W; calls : list (model * prompt) }.
Arguments outside {W}.
Arguments calls {W}.

(** Code of the agent: it acts on the world and may raise. *)
Abbreviation Ag W := (M (world W)).

Section WithCollaborators.
Context {W : Type} (E : collaborators W).

Definition lift {A} (f : W -> A * W) : Ag W A := fun w =>
  let '(a, o) := f (outside w) in
  (inr a, {| outside := o; calls := calls w |}).

(** [client.generate(prompt, model=model)], recorded. *)
Definition client_generate (m : model) (p : prompt) : Ag W str := fun w =>
  let '(response, o) := generate E m p (outside w) in
  (inr response, {| outside := o; calls := (m, p) :: calls w |}).

(** [state.get(k, dflt)]. *)
Definition state_get (state : AgentState) (k : string) (dflt : json)
  : json := default dflt (state !! lit k).

(** [v == s] for a string literal [s]. *)
Definition eq_str (v : json) (s : string) : bool :=
  match v with
  | JStr x => bool_decide (x = lit s)
  | _ => false
  end.

(** [str(v)], as the f-strings apply it. *)
Definition py_str (v : json) : str :=
  match v with
  | JStr s => s
  | JInt z => str_of_Z z
  | _ => repr E v
  end.

(** [data.get(k, dflt)] on a decoded reply: only a dict has [get]. *)
Definition data_get (data : json) (k : string) (dflt : json)
  : Ag W json :=
  match data with
  | JObj kv => ret (default dflt (dict_get (lit k) kv))
  | _ => raise AttributeError
  end.

(** [float(v)].  An integer converts unless it is beyond the range of a
    double. *)
Definition py_float (v : json) : Ag W QArith_base.Q :=
  match v with
  | JFloat q => ret q
  | JInt z =>
      if (Z.abs z <? 2 ^ 1024 - 2 ^ 970)%Z then ret (QArith_base.inject_Z z)
      else raise OverflowError
  | JBool b => ret (QArith_base.inject_Z (if b then 1 else 0))
  | JStr s =>
      match float_of_str E s with
      | Some q => ret q
      | None => raise ValueError
      end
  | _ => raise TypeError
  end.

(** [json.loads(text)]. *)
Definition loads (text : str) : Ag W json :=
  match json_loads E text with
  | Some data => ret data
  | None => raise JSONDecodeError
  end.

(** The first lines of both reply parsers: strip, and drop the markdown
    fence markers when the reply starts with one. *)
Definition unfence (response : str) : str :=
  let text := strip response in
  if startswith text (lit "```")
  then strip (Re.sub Re.code_fence (fun _ => []) text)
  else text.

(** [except (json.JSONDecodeError, ValueError)]. *)
Definition parse_failure (e : exn) : bool :=
  match e with
  | JSONDecodeError | ValueError => true
  | _ => false
  end.

(** *** interpreter.py *)

Record classification := {
  intent : json; confidence : QArith_base.Q;
  entities : json; inferred_url : json }.

Definition half : QArith_base.Q := QArith_base.Qmake 1 2.

(** The [try] body of [interpreter_node]. *)
Definition interpreter_parse (response : str) : Ag W classification :=
  let text := unfence response in
  let! data := loads text in
  let! intent := data_get data "intent" (JStr (lit "question")) in
  let! c := data_get data "confidence" (JFloat half) in
  let! confidence := py_float c in
  let! entities := data_get data "entities" (JArr []) in
  let! inferred_url := data_get data "inferred_url" JNull in
  ret {| intent := intent; confidence := confidence;
         entities := entities; inferred_url := inferred_url |}.

(** The [except] body. *)
Definition default_classification : classification :=
  {| intent := JStr (lit "question"); confidence := half;
     entities := JArr []; inferred_url := JNull |}.

Definition interpreter_node (state : AgentState) : Ag W AgentState :=
  let message := state_get state "message" (JStr []) in
  let! response :=
    client_generate INTERPRETER_MODEL (INTENT_PROMPT message) in
  let! c := try_except (interpreter_parse response) parse_failure
                       (ret default_classification) in
  ret ({[ lit "intent_type" := intent c;
          lit "confidence" := JFloat (confidence c);
          lit "entities" := entities c;
          lit "inferred_url" := inferred_url c ]} : AgentState).

(** *** decision.py *)

Definition valid_actions : list str :=
  [lit "crawl"; lit "resolve_context"; lit "research"; lit "execute"].

Definition decision_node (state : AgentState) : Ag W AgentState :=
  let intent_type := state_get state "intent_type" (JStr (lit "question")) in
  let entities := state_get state "entities" (JArr []) in
  let inferred_url := state_get state "inferred_url" JNull in
  let message := state_get state "message" (JStr []) in
  if eq_str intent_type "learning" && truthy inferred_url then
    ret ({[ lit "next_action" := JStr (lit "crawl") ]} : AgentState)
  else if eq_str intent_type "followup" then
    ret ({[ lit "next_action" := JStr (lit "resolve_context") ]} : AgentState)
  else if eq_str intent_type "question" then
    ret ({[ lit "next_action" := JStr (lit "research") ]} : AgentState)
  else
    let! response :=
      client_generate ORCHESTRATOR_MODEL
        (DECISION_PROMPT message intent_type entities
           (py_or inferred_url (JStr (lit "none")))) in
    let action := lower (strip response) in
    let action :=
      if bool_decide (action ∈ valid_actions) then action
      else lit "research" in
    ret ({[ lit "next_action" := JStr action ]} : AgentState).

(** *** research.py *)

Definition research_node (state : AgentState) : Ag W AgentState :=
  let message := state_get state "message" (JStr []) in
  let entities := state_get state "entities" (JArr []) in
  let! results := lift (gather E message entities) in
  let! summary :=
    match results with
    | [] => ret []
    | _ => lift (summarize E results message)
    end in
  ret ({[ lit "research_results" := JArr results;
          lit "research_summary" := JStr summary ]} : AgentState).

(** *** ingest.py *)

Definition ingest_node (state : AgentState) : Ag W AgentState :=
  let! outcome :=
    lift (ingest E (state_get state "inferred_url" JNull)
                   (state_get state "entities" (JArr []))
                   (state_get state "message" (JStr []))) in
  match outcome with
  | NoUrl =>
      ret ({[ lit "ingestion_status" := JStr (lit "failed");
              lit "ingestion_message" :=
                JStr (lit "Could not determine documentation URL to index.");
              lit "pages_indexed" := JInt 0 ]} : AgentState)
  | Indexed pages_indexed url collection_name =>
      ret ({[ lit "ingestion_status" := JStr (lit "success");
              lit "ingestion_message" :=
                JStr (lit "Indexed " ++ str_of_Z pages_indexed
                      ++ lit " pages from " ++ url);
              lit "pages_indexed" := JInt pages_indexed;
              lit "collection_name" := JStr collection_name ]} : AgentState)
  | CrawlFailed url error =>
      ret ({[ lit "ingestion_status" := JStr (lit "failed");
              lit "ingestion_message" :=
                JStr (lit "Failed to index " ++ url ++ lit ": " ++ error);
              lit "pages_indexed" := JInt 0 ]} : AgentState)
  end.

(** *** synthesis.py *)

Definition synthesis_node (state : AgentState) : Ag W AgentState :=
  let message := state_get state "message" (JStr []) in
  let research_summary := state_get state "research_summary" (JStr []) in
  let research_results := state_get state "research_results" (JArr []) in
  let! response :=
    client_generate SYNTHESIS_MODEL
      (SYNTHESIS_PROMPT message
         (py_or research_summary
                (JStr (lit "No research results available.")))
         (rag_context E research_results)) in
  ret ({[ lit "draft_response" := JStr response;
          lit "sources" := extract_sources E research_results ]}
       : AgentState).

(** *** critic.py *)

(** [critique_count += 1]. *)
Definition increment (v : json) : Ag W json :=
  match v with
  | JInt z => ret (JInt (z + 1))
  | JBool b => ret (JInt ((if b then 1 else 0) + 1))
  | JFloat q => ret (JFloat (QArith_base.Qplus q (QArith_base.inject_Z 1)))
  | _ => raise TypeError
  end.

(** [v >= n] and [v > n] for a number [v] and an integer literal [n]. *)
Definition as_number (v : json) : option QArith_base.Q :=
  match v with
  | JInt z => Some (QArith_base.inject_Z z)
  | JBool b => Some (QArith_base.inject_Z (if b then 1 else 0))
  | JFloat q => Some q
  | _ => None
  end.

Definition ge_int (v : json) (n : Z) : Ag W bool :=
  match as_number v with
  | Some q => ret (QArith_base.Qle_bool (QArith_base.inject_Z n) q)
  | None => raise TypeError
  end.

Definition gt_int (v : json) (n : Z) : Ag W bool :=
  match as_number v with
  | Some q => ret (negb (QArith_base.Qle_bool q (QArith_base.inject_Z n)))
  | None => raise TypeError
  end.

(** ["; ".join(v)]: [v] must be an iterable of strings. *)
Definition join_value (sep : str) (v : json) : Ag W str :=
  match v with
  | JArr l =>
      match mapM (fun x => match x with JStr s => Some s | _ => None end) l
      with
      | Some ss => ret (join sep ss)
      | None => raise TypeError
      end
  | JStr s => ret (join sep (map (fun c => [c]) s))
  | JObj kv => ret (join sep (map fst kv))
  | _ => raise TypeError
  end.

Record verdict := {
  is_approved : json; score : QArith_base.Q; feedback : str }.

(** The [try] body of [critic_node]. *)
Definition critic_parse (response : str) : Ag W verdict :=
  let text := unfence response in
  let! data := loads text in
  let! is_approved := data_get data "is_approved" (JBool true) in
  let! s := data_get data "score" (JFloat (QArith_base.Qmake 8 10)) in
  let! score := py_float s in
  let! issues := data_get data "issues" (JArr []) in
  let! suggestions := data_get data "suggestions" (JArr []) in
  let! feedback :=
    if negb (truthy is_approved) then
      let! f1 :=
        if truthy issues then
          let! j := join_value (lit "; ") issues in
          ret (lit "Issues: " ++ j ++ [newline])
        else ret [] in
      let! f2 :=
        if truthy suggestions then
          let! j := join_value (lit "; ") suggestions in
          ret (lit "Suggestions: " ++ j)
        else ret [] in
      ret (f1 ++ f2)
    else ret [] in
  ret {| is_approved := is_approved; score := score;
         feedback := feedback |}.

(** The [except] body. *)
Definition default_verdict : verdict :=
  {| is_approved := JBool true; score := QArith_base.Qmake 7 10;
     feedback := [] |}.

Definition max_critiques : Z := 3.

Definition auto_approved : str :=
  lit "Auto-approved after maximum critique attempts.".

Definition critic_node (state : AgentState) : Ag W AgentState :=
  let message := state_get state "message" (JStr []) in
  let draft_response := state_get state "draft_response" (JStr []) in
  let research_summary := state_get state "research_summary" (JStr []) in
  let critique_count := state_get state "critique_count" (JInt 0) in
  let! critique_count := increment critique_count in
  let! at_bound := ge_int critique_count max_critiques in
  if at_bound then
    ret ({[ lit "is_approved" := JBool true;
            lit "critique_count" := critique_count;
            lit "critique_feedback" := JStr auto_approved ]} : AgentState)
  else
    let! response :=
      client_generate CRITIC_MODEL
        (CRITIC_PROMPT message draft_response
           (py_or research_summary (JStr (lit "No research available.")))) in
    let! v := try_except (critic_parse response) parse_failure
                         (ret default_verdict) in
    ret ({[ lit "is_approved" := is_approved v;
            lit "critique_count" := critique_count;
            lit "critique_score" := JFloat (score v);
            lit "critique_feedback" := JStr (feedback v) ]} : AgentState).

End WithCollaborators.

End Nodes.

(** ** images/agent/graph.py *)

Module Graph.
Import Nodes.

(** The nodes [build_graph] adds, by the name they are added under. *)
Inductive node :=
| interpreter
| decision
| crawl
| ingest_response
| research
| resolve_context
| synthesis
| critic
| revise
| answer.

Section WithCollaborators.
Context {W : Type} (E : collaborators W).

Definition route_after_decision (state : AgentState) : node :=
  let action := state_get state "next_action" (JStr (lit "research")) in
  if eq_str action "crawl" then crawl
  else if eq_str action "resolve_context" then resolve_context
  else research.

Definition route_after_critic (state : AgentState) : Ag W node :=
  let is_approved := state_get state "is_approved" (JBool false) in
  let critique_count := state_get state "critique_count" (JInt 0) in
  if truthy is_approved then ret answer
  else
    let! at_bound := ge_int critique_count 3 in
    if at_bound then ret answer else ret revise.

Definition resolve_context_node (state : AgentState) : Ag W AgentState :=
  ret ({[ lit "research_summary" :=
            JStr (lit "Followup context: "
                  ++ py_str E (state_get state "message" (JStr []))) ]}
       : AgentState).

Definition revise_node (state : AgentState) : Ag W AgentState :=
  let feedback := state_get state "critique_feedback" (JStr []) in
  let current_summary := state_get state "research_summary" (JStr []) in
  let enhanced_summary :=
    py_str E current_summary ++ [newline; newline]
    ++ lit "Previous draft issues: " ++ py_str E feedback in
  ret ({[ lit "research_summary" := JStr enhanced_summary ]} : AgentState).

Definition answer_node (state : AgentState) : Ag W AgentState :=
  let draft := state_get state "draft_response" (JStr []) in
  let actions := [] in
  let actions :=
    if eq_str (state_get state "ingestion_status" JNull) "success"
    then actions ++ [JStr (lit "crawl")] else actions in
  let actions :=
    if truthy (state_get state "research_results" JNull)
    then actions ++ [JStr (lit "research")] else actions in
  let! revised := gt_int (state_get state "critique_count" (JInt 0)) 1 in
  let actions :=
    if revised then actions ++ [JStr (lit "revise")] else actions in
  let actions := actions ++ [JStr (lit "synthesize")] in
  ret ({[ lit "final_response" := draft;
          lit "actions_taken" := JArr actions ]} : AgentState).

Definition ingest_then_synthesize (state : AgentState) : Ag W AgentState :=
  let status := state_get state "ingestion_status" (JStr []) in
  let message := state_get state "ingestion_message" (JStr []) in
  let pages := state_get state "pages_indexed" (JInt 0) in
  let collection := state_get state "collection_name" (JStr []) in
  let response :=
    if eq_str status "success" then
      lit "I've indexed the documentation you requested. "
      ++ lit "Processed " ++ py_str E pages
      ++ lit " pages and stored them in the '" ++ py_str E collection
      ++ lit "' collection. "
      ++ lit "You can now ask questions about this documentation."
    else lit "I encountered an issue while indexing: " ++ py_str E message in
  ret ({[ lit "draft_response" := JStr response;
          lit "is_approved" := JBool true ]} : AgentState).

(** [add_node]: the function behind each name. *)
Definition node_function (n : node) : AgentState -> Ag W AgentState :=
  match n with
  | interpreter => interpreter_node E
  | decision => decision_node E
  | crawl => ingest_node E
  | ingest_response => ingest_then_synthesize
  | research => research_node E
  | resolve_context => resolve_context_node
  | synthesis => synthesis_node E
  | critic => critic_node E
  | revise => revise_node
  | answer => answer_node
  end.

(** [add_edge] and [add_conditional_edges]: the node to run next, [None]
    for [END]. *)
Definition next_node (n : node) (state : AgentState) : Ag W (option node) :=
  match n with
  | interpreter => ret (Some decision)
  | decision => ret (Some (route_after_decision state))
  | crawl => ret (Some ingest_response)
  | ingest_response => ret (Some answer)
  | research => ret (Some synthesis)
  | resolve_context => ret (Some research)
  | synthesis => ret (Some critic)
  | critic => let! n := route_after_critic state in ret (Some n)
  | revise => ret (Some synthesis)
  | answer => ret None
  end.

(** A node's return value is merged into the state: the keys it returns
    are overwritten, the others kept. *)
Definition merge (state update : AgentState) : AgentState :=
  update ∪ state.

(** The compiled graph run from node [n]: one node per step, at most
    [limit] steps.  The result is the final state and the nodes run, in
    order. *)
Fixpoint run (limit : nat) (n : node) (state : AgentState)
  : Ag W (AgentState * list node) :=
  match limit with
  | 0 => raise GraphRecursionError
  | S limit' =>
      let! update := node_function n state in
      let state' := merge state update in
      let! next := next_node n state' in
      match next with
      | None => ret (state', [n])
      | Some n' =>
          let! (final, trace) := run limit' n' state' in
          ret (final, n :: trace)
      end
  end.

(** The default recursion limit of a compiled graph. *)
Definition recursion_limit : nat := 25.

(** [agent_graph.invoke(input)]: the entry point is [interpreter]. *)
Definition invoke (input : AgentState) : Ag W (AgentState * list node) :=
  run recursion_limit interpreter input.

End WithCollaborators.

End Graph.

(** * Vocabulary of the statements *)

(** ** Scripted collaborators

    Stand-ins used by the examples: a completion runtime that always gives
    the same reply to the interpreter and the same reply to the critic, and
    a decoder that knows the replies the examples use (on those it agrees
    with [json.loads]; anything else it rejects).  No example converts a
    numeric string, so [float_of_str] rejects the strings it is shown. *)

Module Scripted.
Import Nodes.

Definition quoted (s : string) : str := "034"%char :: lit s ++ ["034"%char].

(** [{"is_approved": false}] *)
Definition reject_reply : str :=
  lit "{" ++ quoted "is_approved" ++ lit ": false}".

(** [{"intent": "bogus", "confidence": 7}] *)
Definition bogus_reply : str :=
  lit "{" ++ quoted "intent" ++ lit ": " ++ quoted "bogus" ++ lit ", "
  ++ quoted "confidence" ++ lit ": 7}".

(** [{"confidence": "high"}] *)
Definition high_reply : str :=
  lit "{" ++ quoted "confidence" ++ lit ": " ++ quoted "high" ++ lit "}".

Definition number_reply : str := lit "42".

Definition prose_reply : str := lit "This looks like a question.".

Definition decode (text : str) : option json :=
  if bool_decide (text = reject_reply) then
    Some (JObj [(lit "is_approved", JBool false)])
  else if bool_decide (text = bogus_reply) then
    Some (JObj [(lit "intent", JStr (lit "bogus"));
                (lit "confidence", JInt 7)])
  else if bool_decide (text = high_reply) then
    Some (JObj [(lit "confidence", JStr (lit "high"))])
  else if bool_decide (text = number_reply) then Some (JInt 42)
  else None.

Definition collab (interpreter_reply critic_reply : str)
  : collaborators unit :=
  {| generate := fun m _ w =>
       (match m with
        | INTERPRETER_MODEL => interpreter_reply
        | CRITIC_MODEL => critic_reply
        | _ => lit "A draft."
        end, w);
     json_loads := decode;
     float_of_str := fun _ => None;
     repr := fun _ => lit "?";
     gather := fun _ _ w => ([], w);
     summarize := fun _ _ w => ([], w);
     rag_context := fun _ => lit "No stored context available.";
     extract_sources := fun _ => JArr [];
     ingest := fun _ _ _ w => (NoUrl, w) |}.

Definition start : world unit := {| outside := tt; calls := [] |}.

(** A fresh request. *)
Definition request : AgentState :=
  {[ lit "message" := JStr (lit "what is a monad?");
     lit "conversation_id" := JStr (lit "c-1") ]}.

End Scripted.

(** The completion calls addressed to one model. *)
Definition calls_to {W} (m : Nodes.model) (w : Nodes.world W) : nat :=
  length (List.filter
            (fun c => match fst c, m with
                      | Nodes.INTERPRETER_MODEL, Nodes.INTERPRETER_MODEL
                      | Nodes.ORCHESTRATOR_MODEL, Nodes.ORCHESTRATOR_MODEL
                      | Nodes.SYNTHESIS_MODEL, Nodes.SYNTHESIS_MODEL
                      | Nodes.CRITIC_MODEL, Nodes.CRITIC_MODEL => true
                      | _, _ => false
                      end)
            (Nodes.calls w)).

(** A critic model that always reports non-approval: whatever it is asked,
    its reply parses, and to a verdict whose approval is false. *)
Definition always_rejects {W} (E : Nodes.collaborators W) : Prop :=
  forall (p : Nodes.prompt) (o : W) (w : Nodes.world W),
    exists v,
      Nodes.critic_parse E (fst (Nodes.generate E Nodes.CRITIC_MODEL p o)) w
      = (inr v, w)
      /\ truthy (Nodes.is_approved v) = false.

(** ** Reading a raw message *)

(** The two values [normalize_tool_calls] reads from the dict of a message:
    its [tool_calls] entry, an empty list when missing or false, and its
    [content] entry, the empty string when missing or false. *)
Definition structured_calls (d : gmap str json) : json :=
  py_or (default JNull (d !! lit "tool_calls")) (JArr []).

Definition content_of (d : gmap str json) : json :=
  py_or (default (JStr []) (d !! lit "content")) (JStr []).

(** The tool-call list of a message, empty when the entry is missing or is
    not a list. *)
Definition tool_calls_of (d : gmap str json) : list json :=
  match d !! lit "tool_calls" with
  | Some (JArr calls) => calls
  | _ => []
  end.

(** A transform applies to a message when it carries structured calls, or
    when its content is text that think-stripping changes or from which a
    call with a valid name is recovered. *)
Definition transform_applies (d : gmap str json) (valid_names : gset str)
  : Prop :=
  truthy (structured_calls d) = true
  \/ exists s,
       content_of d = JStr s
       /\ (Qwen3._strip_think_tags s <> s
           \/ Qwen3.recover
                (fst (Qwen3._parse_xml_tool_calls (Qwen3._strip_think_tags s)))
                valid_names <> []).

(** The reference [dict(m)] returns in store [h]. *)
Definition fresh_loc (h : gmap positive (gmap str json)) : positive :=
  fresh (dom h : gset positive).

(** The [id] entry of a tool-call dict, if it has one. *)
Definition call_id (call : json) : option json :=
  match call with
  | JObj kv => dict_get (lit "id") kv
  | _ => None
  end.

(** The dict [normalize_ai_message] builds for the parsed call at position
    [i]. *)
Definition recovered_ai_call (i : nat) (call : Qwen3.xml_call) : json :=
  JObj [(lit "name", JStr (Qwen3.name call));
        (lit "args", JObj (Qwen3.arguments call));
        (lit "id", JStr (lit "recovered_" ++ str_of_nat i))].

(** ** Well-formed markup

    The text the Hermes scan is specified on: a lead text followed by
    elements [<tag=NAME>INNER</tag>], each followed by more text.  An element
    is well formed when its name is not empty and holds no [>], its inner
    text holds no closing tag, and the text after it opens no element. *)

Module Markup.

(** The name as written, the inner text, and the text after the element. *)
Definition element : Type := str * str * str.

Definition opening (tag : str) : str := lit "<" ++ tag ++ lit "=".
Definition closing (tag : str) : str := lit "</" ++ tag ++ lit ">".





End Markup.






(** The arguments of a block: each key trimmed, each value as written; a key
    written twice keeps its first place and its last value, as in a dict. *)
Definition arguments_of (params : list Markup.element) : list (str * json) :=
  fold_left (fun args '(key, value, _) => dict_set (strip key) (JStr value) args)
            params [].



(** ** Example messages *)








Module Messages.

(** A structured call as the runtime delivers it:
    [{"function": {"name": n, "arguments": {}}}]. *)
Definition structured (n : string) : json :=
  JObj [(lit "function",
         JObj [(lit "name", JStr (lit n)); (lit "arguments", JObj [])])].

(** A store holding one message, at location 1. *)
Definition store (content : str) (tool_calls : json) : gmap positive (gmap str json) :=
  {[ 1%positive := {[ lit "role" := JStr (lit "assistant");
                      lit "content" := JStr content;
                      lit "tool_calls" := tool_calls ]} ]}.

Definition tools : gset str := {[ lit "web_search"; lit "read_file" ]}.

(** The dict of the message in [store content tool_calls]. *)
Definition message (content : str) (tool_calls : json) : gmap str json :=
  {[ lit "role" := JStr (lit "assistant");
     lit "content" := JStr content;
     lit "tool_calls" := tool_calls ]}.

(** One call written in the content, between two sentences. *)
Definition one_call : str :=
  lit "Let me search. <function=web_search></function> Done.".




End Messages.

(** * Properties *)

(** ** The content filter *)

Section ContentFilterFacts.
Import ContentFilters.

Lemma split_lines_cons (s : str) : exists l ls, split_lines s = l :: ls.
Proof.
  induction s as [|c s [l [ls IH]]]; simpl; [by eauto|].
  destruct (eqc c newline); rewrite ?IH; eauto.
Qed.

Lemma split_lines_newline (r b : str) :
  split_lines (r ++ newline :: b) = split_lines r ++ split_lines b.
Proof.
  induction r as [|c r IH]; simpl.
  - done.
  - destruct (eqc c newline); rewrite IH; [done|].
    destruct (split_lines_cons r) as [l [ls ->]]. done.
Qed.

Lemma transform_lines_cons (lines : list str) (in_fence : bool) :
  lines <> [] -> fst (transform_lines lines in_fence) <> [].
Proof.
  destruct lines as [|x [|y ys]]; [done| |]; intros _.
  - simpl. destruct x; [done|].
    by destruct (_transform_line _ _).
  - change (transform_lines (x :: y :: ys) in_fence)
      with (let '(l', f) := _transform_line x in_fence in
            let '(out, f') := transform_lines (y :: ys) f in
            (l' :: out, f')).
    destruct (_transform_line x in_fence) as [l f].
    by destruct (transform_lines (y :: ys) f).
Qed.

Lemma transform_lines_app (L M : list str) (in_fence : bool) :
  M <> [] ->
  transform_lines (L ++ M) in_fence =
  let '(o1, f1) := thread L in_fence in
  let '(o2, f2) := transform_lines M f1 in
  (o1 ++ o2, f2).
Proof.
  intros HM. revert in_fence.
  induction L as [|l L IH]; intros in_fence.
  - simpl. by destruct (transform_lines M in_fence).
  - change ((l :: L) ++ M) with (l :: (L ++ M)).
    destruct (L ++ M) as [|x xs] eqn:HLM.
    { by destruct L, M. }
    change (transform_lines (l :: x :: xs) in_fence)
      with (let '(l', f) := _transform_line l in_fence in
            let '(out, f') := transform_lines (x :: xs) f in
            (l' :: out, f')).
    simpl thread.
    destruct (_transform_line l in_fence) as [l' f].
    rewrite IH. destruct (thread L f) as [o1 f1].
    by destruct (transform_lines M f1) as [o2 f2].
Qed.

Lemma join_lines_app (A B : list str) :
  B <> [] ->
  join_lines (A ++ B)
  = concat (map (fun l => l ++ [newline]) A) ++ join_lines B.
Proof.
  intros HB. induction A as [|a A IH]; [done|].
  change ((a :: A) ++ B) with (a :: (A ++ B)).
  destruct (A ++ B) as [|x xs] eqn:HAB.
  { by destruct A, B. }
  change (join_lines (a :: x :: xs))
    with (a ++ newline :: join_lines (x :: xs)).
  rewrite IH. simpl. by rewrite <- !app_assoc.
Qed.

(** A text cut after a newline is transformed piece by piece. *)
Lemma transform_after_newline (r b : str) (in_fence : bool) :
  _transform ((r ++ [newline]) ++ b) in_fence =
  let '(o1, f1) := _transform (r ++ [newline]) in_fence in
  let '(o2, f2) := _transform b f1 in
  (o1 ++ o2, f2).
Proof.
  unfold _transform.
  rewrite <- app_assoc. simpl app.
  rewrite !split_lines_newline. simpl (split_lines []).
  rewrite !transform_lines_app by (try done; destruct (split_lines_cons b) as [? [? ->]]; done).
  destruct (thread (split_lines r) in_fence) as [o1 f1]. simpl.
  destruct (transform_lines (split_lines b) f1) as [o2 f2] eqn:Hb.
  rewrite !join_lines_app; [by rewrite app_nil_r|done|].
  pose proof (transform_lines_cons (split_lines b) f1) as H.
  rewrite Hb in H. apply H.
  by destruct (split_lines_cons b) as [? [? ->]].
Qed.

Lemma rsplit_newline_spec (s ready rest : str) :
  rsplit_newline s = Some (ready, rest) ->
  s = ready ++ rest /\ exists r, ready = r ++ [newline].
Proof.
  revert ready rest. induction s as [|c s IH]; intros ready rest; [done|].
  simpl. destruct (rsplit_newline s) as [[rd rs]|].
  - intros [= <- <-]. destruct (IH rd rs eq_refl) as [-> [r ->]].
    split; [done|]. by exists (c :: r).
  - destruct (eqc c newline) eqn:Hc; [|done].
    intros [= <- <-]. apply Ascii.eqb_eq in Hc. subst c.
    split; [done|]. by exists [].
Qed.

Lemma flush_spec (self : GooseFilter) :
  fst (flush self) = fst (_transform (_buffer self) (_in_fence self)).
Proof.
  unfold flush. destruct (_buffer self) as [|c b]; [done|].
  by destruct (_transform (c :: b) (_in_fence self)).
Qed.

(** What [feed] emits, followed by the transform of what it kept and any
    later text, is the transform of all of it. *)
Lemma feed_then_rest (self : GooseFilter) (t u : str) :
  fst (feed self t)
  ++ fst (_transform (_buffer (snd (feed self t)) ++ u)
                     (_in_fence (snd (feed self t))))
  = fst (_transform (_buffer self ++ t ++ u) (_in_fence self)).
Proof.
  unfold feed.
  destruct (rsplit_newline (_buffer self ++ t)) as [[ready rest]|] eqn:Hs.
  - apply rsplit_newline_spec in Hs as [Heq [r ->]].
    rewrite app_assoc, Heq, <- app_assoc.
    rewrite (transform_after_newline r (rest ++ u)).
    destruct (_transform (r ++ [newline]) (_in_fence self)) as [o1 f1].
    simpl. by destruct (_transform (rest ++ u) f1).
  - simpl. by rewrite app_assoc.
Qed.

Lemma stream_spec (chunks : list str) : forall self,
  stream self chunks
  = fst (_transform (_buffer self ++ concat chunks) (_in_fence self)).
Proof.
  unfold stream.
  induction chunks as [|c cs IH]; intros self; simpl.
  - by rewrite flush_spec, app_nil_r.
  - pose proof (feed_then_rest self c (concat cs)) as H.
    destruct (feed self c) as [out self'].
    specialize (IH self').
    destruct (feed_all self' cs) as [outs self''].
    simpl in H. by rewrite <- app_assoc, IH.
Qed.

Lemma join_split_lines (s : str) : join_lines (split_lines s) = s.
Proof.
  induction s as [|c s IH]; [done|]. simpl.
  destruct (split_lines_cons s) as [l [ls Hs]]. rewrite Hs in IH |- *.
  destruct (eqc c newline) eqn:E.
  - apply Ascii.eqb_eq in E as ->. change (join_lines ([] :: l :: ls))
      with ([] ++ newline :: join_lines (l :: ls)). by rewrite IH.
  - destruct ls; simpl in *; by rewrite IH.
Qed.

Lemma transform_lines_fenced (lines : list str) :
  Forall (fun l => startswith (strip l) (lit "```") = false) lines ->
  transform_lines lines true = (lines, true).
Proof.
  induction 1 as [|l lines Hl _ IH]; [done|].
  assert (_transform_line l true = (l, true)) as Hline.
  { unfold _transform_line. by rewrite Hl. }
  destruct lines as [|l' lines].
  - simpl. destruct l; [done|]. by rewrite Hline.
  - change (transform_lines (l :: l' :: lines) true)
      with (let '(x, f) := _transform_line l true in
            let '(out, f') := transform_lines (l' :: lines) f in
            (x :: out, f')).
    by rewrite Hline, IH.
Qed.

(** Text met while the fence is open, none of whose lines is a fence
    delimiter, comes out as it went in, and the fence stays open. *)
Lemma fenced_text_unmodified (text : str) :
  Forall (fun l => startswith (strip l) (lit "```") = false)
         (split_lines text) ->
  _transform text true = (text, true).
Proof.
  intros H. unfold _transform. rewrite (transform_lines_fenced _ H).
  by rewrite join_split_lines.
Qed.

(** C5.  Chunk boundaries do not change what a [GooseFilter] emits: for
    every filter state and every way of cutting a text into chunks, feeding
    the chunks in order and flushing gives the same output as feeding the
    whole text in one call and flushing; in particular so does feeding it
    character by character. *)
Theorem chunking_invariance (self : GooseFilter) (chunks : list str) :
  stream self chunks = stream self [concat chunks]
  /\ stream self (map (fun c => [c]) (concat chunks))
     = stream self [concat chunks].
Proof.
  rewrite !stream_spec. simpl. rewrite !app_nil_r. split; [done|].
  do 2 f_equal. f_equal.
  induction (concat chunks) as [|c s IH]; [done|].
  simpl. by rewrite IH.
Qed.



End ContentFilterFacts.

(** ** The orchestration *)

Section GraphFacts.
Import Nodes Graph.
Context {W : Type} (E : collaborators W).

Lemma state_get_merge_hit (st upd : AgentState) k d v :
  upd !! lit k = Some v -> state_get (merge st upd) k d = v.
Proof.
  intros H. unfold state_get, merge.
  by rewrite (lookup_union_Some_l upd st _ _ H).
Qed.

Lemma state_get_merge_miss (st upd : AgentState) k d :
  upd !! lit k = None -> state_get (merge st upd) k d = state_get st k d.
Proof.
  intros H. unfold state_get, merge. by rewrite lookup_union_r.
Qed.

Lemma lookup_merge_hit (st upd : AgentState) (k : str) v :
  upd !! k = Some v -> merge st upd !! k = Some v.
Proof. intros H. by apply lookup_union_Some_l. Qed.

Lemma lookup_merge_miss (st upd : AgentState) (k : str) :
  upd !! k = None -> merge st upd !! k = st !! k.
Proof. intros H. by apply lookup_union_r. Qed.

Lemma run_unfold (limit : nat) (n : node) (st : AgentState) (w : world W) :
  run E (S limit) n st w =
  match node_function E n st w with
  | (inr upd, w1) =>
      match next_node n (merge st upd) w1 with
      | (inr None, w2) => (inr (merge st upd, [n]), w2)
      | (inr (Some n'), w2) =>
          match run E limit n' (merge st upd) w2 with
          | (inr (final, trace), w3) => (inr (final, n :: trace), w3)
          | (inl e, w3) => (inl e, w3)
          end
      | (inl e, w2) => (inl e, w2)
      end
  | (inl e, w1) => (inl e, w1)
  end.
Proof.
  simpl. unfold bind.
  destruct (node_function E n st w) as [[e|upd] w1]; [done|].
  destruct (next_node n (merge st upd) w1) as [[e|[n'|]] w2]; try done.
  destruct (run E limit n' (merge st upd) w2) as [[e|[final trace]] w3]; done.
Qed.

(** The synthesis step: a draft and sources, one call to the synthesis
    model; the critique counter is not touched. *)
Lemma synthesis_step (st : AgentState) (w : world W) :
  exists upd w1,
    synthesis_node E st w = (inr upd, w1)
    /\ calls_to CRITIC_MODEL w1 = calls_to CRITIC_MODEL w
    /\ upd !! lit "critique_count" = None.
Proof.
  unfold synthesis_node, bind, client_generate.
  destruct (generate E SYNTHESIS_MODEL _ (outside w)) as [r o] eqn:Hg.
  eexists _, _. split; [reflexivity|]. split; [reflexivity|].
  reflexivity.
Qed.

Lemma ge_int_Z (z n : Z) (w : world W) :
  ge_int (JInt z) n w = (inr (n <=? z)%Z, w).
Proof.
  unfold ge_int, ret. simpl. unfold QArith_base.Qle_bool. simpl.
  by rewrite !Z.mul_1_r.
Qed.

Lemma gt_int_Z (z n : Z) (w : world W) :
  gt_int (JInt z) n w = (inr (negb (z <=? n)%Z), w).
Proof.
  unfold gt_int, ret. simpl. unfold QArith_base.Qle_bool. simpl.
  by rewrite !Z.mul_1_r.
Qed.

(** The critic below the bound, facing a model that rejects: one call to
    the model, the counter incremented, approval false. *)
Lemma critic_step_below (st : AgentState) (w : world W) (k : Z) :
  always_rejects E ->
  state_get st "critique_count" (JInt 0) = JInt k ->
  (k + 1 < 3)%Z ->
  exists v w1,
    critic_node E st w
    = (inr ({[ lit "is_approved" := is_approved v;
               lit "critique_count" := JInt (k + 1);
               lit "critique_score" := JFloat (score v);
               lit "critique_feedback" := JStr (feedback v) ]}
              : AgentState), w1)
    /\ truthy (is_approved v) = false
    /\ calls_to CRITIC_MODEL w1 = S (calls_to CRITIC_MODEL w).
Proof.
  intros Hrej Hk Hlt. unfold critic_node. rewrite Hk.
  unfold bind at 1. simpl increment. unfold ret at 1.
  unfold bind at 1. rewrite ge_int_Z.
  destruct (Z.leb_spec max_critiques (k + 1)) as [Hge|_].
  { unfold max_critiques in Hge. lia. }
  unfold bind at 1, client_generate at 1.
  match goal with
  | |- context [generate E CRITIC_MODEL ?p (outside w)] => set (P := p)
  end.
  pose proof (Hrej P (outside w)) as Hr.
  destruct (generate E CRITIC_MODEL P (outside w)) as [r o].
  destruct (Hr {| outside := o; calls := (CRITIC_MODEL, P) :: calls w |})
    as [v [Hv Hfalse]].
  cbn [fst] in Hv. unfold bind, try_except. rewrite Hv.
  exists v. eexists. split; [reflexivity|]. split; [done|]. reflexivity.
Qed.

(** The critic at the bound: approval forced, the fixed feedback, and no
    call to the model. *)
Lemma critic_step_bound (st : AgentState) (w : world W) (k : Z) :
  state_get st "critique_count" (JInt 0) = JInt k ->
  (3 <= k + 1)%Z ->
  critic_node E st w
  = (inr ({[ lit "is_approved" := JBool true;
             lit "critique_count" := JInt (k + 1);
             lit "critique_feedback" := JStr auto_approved ]}
            : AgentState), w).
Proof.
  intros Hk Hge. unfold critic_node. rewrite Hk.
  unfold bind at 1. simpl increment. unfold ret at 1.
  unfold bind at 1. rewrite ge_int_Z.
  destruct (Z.leb_spec max_critiques (k + 1)) as [_|Hlt]; [done|].
  unfold max_critiques in Hlt. lia.
Qed.

Lemma run_step (limit : nat) (n n' : node) (st upd final : AgentState)
    (w w1 w2 w3 : world W) (trace : list node) :
  node_function E n st w = (inr upd, w1) ->
  next_node n (merge st upd) w1 = (inr (Some n'), w2) ->
  run E limit n' (merge st upd) w2 = (inr (final, trace), w3) ->
  run E (S limit) n st w = (inr (final, n :: trace), w3).
Proof. intros H1 H2 H3. by rewrite run_unfold, H1, H2, H3. Qed.

Lemma run_last (limit : nat) (n : node) (st upd : AgentState)
    (w w1 w2 : world W) :
  node_function E n st w = (inr upd, w1) ->
  next_node n (merge st upd) w1 = (inr None, w2) ->
  run E (S limit) n st w = (inr (merge st upd, [n]), w2).
Proof. intros H1 H2. by rewrite run_unfold, H1, H2. Qed.

(** Routing after the critic. *)
Lemma route_approved (st : AgentState) (w : world W) :
  truthy (state_get st "is_approved" (JBool false)) = true ->
  next_node critic st w = (inr (Some answer), w).
Proof.
  intros H. simpl. unfold bind, route_after_critic. by rewrite H.
Qed.

Lemma route_rejected (st : AgentState) (w : world W) (z : Z) :
  truthy (state_get st "is_approved" (JBool false)) = false ->
  state_get st "critique_count" (JInt 0) = JInt z ->
  next_node critic st w
  = (inr (Some (if (3 <=? z)%Z then answer else revise)), w).
Proof.
  intros H Hz. simpl. unfold bind, route_after_critic.
  rewrite H, Hz. unfold bind. rewrite ge_int_Z.
  by destruct (3 <=? z)%Z.
Qed.

(** The answer node on a state whose counter is an integer. *)
Lemma answer_step (st : AgentState) (w : world W) (z : Z) :
  state_get st "critique_count" (JInt 0) = JInt z ->
  exists upd,
    answer_node st w = (inr upd, w)
    /\ upd !! lit "critique_feedback" = None
    /\ upd !! lit "is_approved" = None
    /\ upd !! lit "critique_count" = None.
Proof.
  intros Hz. unfold answer_node. rewrite Hz. unfold bind.
  rewrite gt_int_Z. eexists. split; [reflexivity|]. done.
Qed.

Lemma revise_step (st : AgentState) (w : world W) :
  exists upd,
    revise_node E st w = (inr upd, w)
    /\ upd !! lit "critique_count" = None.
Proof. unfold revise_node. eexists. split; [reflexivity|]. done. Qed.

(** The critique and revise loop against a rejecting model, entered at
    [synthesis] with [n] critiques left before the bound. *)
Lemma critique_loop (n : nat) :
  always_rejects E ->
  forall (st : AgentState) (w : world W) (limit : nat),
    state_get st "critique_count" (JInt 0) = JInt (2 - Z.of_nat n) ->
    3 * n + 3 <= limit ->
    exists final w',
      run E limit synthesis st w
      = (inr (final,
              concat (repeat [synthesis; critic; revise] n)
              ++ [synthesis; critic; answer]), w')
      /\ final !! lit "critique_feedback" = Some (JStr auto_approved)
      /\ final !! lit "is_approved" = Some (JBool true)
      /\ final !! lit "critique_count" = Some (JInt 3)
      /\ calls_to CRITIC_MODEL w' = n + calls_to CRITIC_MODEL w.
Proof.
  intros Hrej. induction n as [|n IH]; intros st w limit Hk Hlimit.
  - destruct limit as [|[|[|limit]]]; try lia.
    destruct (synthesis_step st w) as [us [w1 [Hs [Hc1 Hmiss]]]].
    pose proof (critic_step_bound (merge st us) w1 2) as Hc.
    rewrite (state_get_merge_miss _ _ _ _ Hmiss) in Hc.
    specialize (Hc Hk ltac:(lia)).
    match type of Hc with _ = (inr ?u, _) => set (uc := u) in * end.
    destruct (answer_step (merge (merge st us) uc) w1 3)
      as [ua [Ha [Ha1 [Ha2 Ha3]]]].
    { by apply state_get_merge_hit. }
    exists (merge (merge (merge st us) uc) ua), w1.
    split.
    + eapply run_step; [exact Hs|reflexivity|].
      eapply run_step; [exact Hc| |].
      { apply route_approved.
        by rewrite (state_get_merge_hit _ _ "is_approved" _ (JBool true)). }
      eapply run_last; [exact Ha|reflexivity].
    + rewrite !(lookup_merge_miss _ ua) by done.
      repeat split; try (by apply lookup_merge_hit).
      by rewrite Hc1.
  - destruct limit as [|[|[|limit]]]; try lia.
    destruct (synthesis_step st w) as [us [w1 [Hs [Hc1 Hmiss]]]].
    destruct (critic_step_below (merge st us) w1 (2 - Z.of_nat (S n)) Hrej)
      as [v [w2 [Hc [Hfalse Hc2]]]].
    { by rewrite (state_get_merge_miss _ _ _ _ Hmiss). }
    { lia. }
    match type of Hc with _ = (inr ?u, _) => set (uc := u) in * end.
    pose proof (route_rejected (merge (merge st us) uc) w2
                  (2 - Z.of_nat (S n) + 1)) as Hroute.
    rewrite (state_get_merge_hit _ _ "is_approved" _ (is_approved v))
      in Hroute by done.
    rewrite (state_get_merge_hit _ _ "critique_count" _
               (JInt (2 - Z.of_nat (S n) + 1))) in Hroute by done.
    specialize (Hroute Hfalse eq_refl).
    destruct (Z.leb_spec 3 (2 - Z.of_nat (S n) + 1)) as [Hge|_]; [lia|].
    destruct (revise_step (merge (merge st us) uc) w2) as [ur [Hr Hrmiss]].
    destruct (IH (merge (merge (merge st us) uc) ur) w2 limit)
      as [final [w' [Hrun [H1 [H2 [H3 H4]]]]]].
    { rewrite state_get_merge_miss by done.
      rewrite (state_get_merge_hit _ _ "critique_count" _
                 (JInt (2 - Z.of_nat (S n) + 1))) by done.
      f_equal. lia. }
    { lia. }
    exists final, w'. split.
    + simpl concat. simpl app.
      eapply run_step; [exact Hs|reflexivity|].
      eapply run_step; [exact Hc|exact Hroute|].
      eapply run_step; [exact Hr|reflexivity|].
      exact Hrun.
    + repeat split; try done. rewrite H4, Hc2, Hc1. lia.
Qed.


(** C4.  Facing a critic model that always reports non-approval, a run
    that enters synthesis with the critique counter unset reaches the
    [answer] node after exactly three critic invocations and never a
    fourth: the nodes run are synthesis, critic, revise, synthesis, critic,
    revise, synthesis, critic, answer.  The third invocation forces
    approval and records the fixed feedback
    "Auto-approved after maximum critique attempts." without calling the
    model, so the critic model is called exactly twice. *)
Theorem critic_loop_bounded (st : AgentState) (w : world W) (limit : nat) :
  always_rejects E ->
  st !! lit "critique_count" = None ->
  9 <= limit ->
  exists final w',
    run E limit synthesis st w
    = (inr (final, [synthesis; critic; revise; synthesis; critic; revise;
                    synthesis; critic; answer]), w')
    /\ final !! lit "critique_feedback" = Some (JStr auto_approved)
    /\ final !! lit "is_approved" = Some (JBool true)
    /\ final !! lit "critique_count" = Some (JInt 3)
    /\ calls_to CRITIC_MODEL w' = 2 + calls_to CRITIC_MODEL w.
Proof.
  intros Hrej Hnone Hlimit.
  destruct (critique_loop 2 Hrej st w limit) as [final [w' [Hrun H]]].
  { unfold state_get. by rewrite Hnone. }
  { lia. }
  exists final, w'. split; [exact Hrun|]. exact H.
Qed.

















End GraphFacts.

(** The loop of C4 on the scripted collaborators, whose critic always
    answers [{"is_approved": false}]. *)
Lemma critic_loop_bounded_witness :
  exists final w',
    Graph.run (Scripted.collab Scripted.prose_reply Scripted.reject_reply) 25
              Graph.synthesis Scripted.request Scripted.start
    = (inr (final,
            [Graph.synthesis; Graph.critic; Graph.revise; Graph.synthesis;
             Graph.critic; Graph.revise; Graph.synthesis; Graph.critic;
             Graph.answer]), w')
    /\ final !! lit "critique_feedback" = Some (JStr Nodes.auto_approved)
    /\ final !! lit "is_approved" = Some (JBool true)
    /\ final !! lit "critique_count" = Some (JInt 3)
    /\ calls_to Nodes.CRITIC_MODEL w'
       = 2 + calls_to Nodes.CRITIC_MODEL Scripted.start.
Proof.
  apply (critic_loop_bounded
           (Scripted.collab Scripted.prose_reply Scripted.reject_reply)
           Scripted.request Scripted.start 25).
  - intros p o w. eexists. split; [vm_compute; reflexivity|reflexivity].
  - reflexivity.
  - lia.
Defined.




(** A whole request on the scripted collaborators: the interpreter's reply
    is prose, so the intent defaults to a question and the run goes through
    research; the critic rejects twice and the third critique approves. *)
Example full_run_rejecting_critic :
  (let '(res, w') :=
     Graph.invoke (Scripted.collab Scripted.prose_reply Scripted.reject_reply)
                  Scripted.request Scripted.start in
   match res with
   | inr (final, trace) =>
       Some (trace,
             final !! lit "critique_feedback",
             final !! lit "actions_taken",
             calls_to Nodes.CRITIC_MODEL w')
   | inl _ => None
   end)
  = Some ([Graph.interpreter; Graph.decision; Graph.research;
           Graph.synthesis; Graph.critic; Graph.revise;
           Graph.synthesis; Graph.critic; Graph.revise;
           Graph.synthesis; Graph.critic; Graph.answer],
          Some (JStr Nodes.auto_approved),
          Some (JArr [JStr (lit "revise"); JStr (lit "synthesize")]),
          2).
Proof. vm_compute. reflexivity. Qed.

(** ** The qwen3 adapter: the store *)

Section AdapterStore.
Import Qwen3.
Context (h : heap) (m : loc) (d : pydict) (valid_names : gset str).
Hypothesis Hm : h !! m = Some d.

Lemma bind_ret {S A B} (a : A) (k : A -> M S B) (s : S) :
  bind (ret a) k s = k a s.
Proof. reflexivity. Qed.

Lemma fresh_loc_free : h !! fresh_loc h = None.
Proof.
  unfold fresh_loc. apply (not_elem_of_dom (D := gset loc)).
  apply is_fresh.
Qed.

Lemma dict_copy_spec : dict_copy m h = (inr (fresh_loc h), <[fresh_loc h := d]> h).
Proof. unfold dict_copy. by rewrite Hm. Qed.

Lemma dict_setitem_fresh (r : loc) (d' : pydict) (k : str) (v : json) :
  dict_setitem r k v (<[r := d']> h) = (inr tt, <[r := <[k := v]> d']> h).
Proof. unfold dict_setitem. by rewrite alter_insert_eq. Qed.

Lemma normalize_reads :
  normalize_tool_calls m valid_names h
  = (if truthy (structured_calls d) then
       let! result := dict_copy m in
       let! kept := _filter_hallucinated (structured_calls d) valid_names in
       let! _ := dict_setitem result (lit "tool_calls") kept in
       let! stripped := strip_think_value (content_of d) in
       let! _ := dict_setitem result (lit "content") (JStr stripped) in
       ret result
     else
       let no_recovery (content : str) : Py loc :=
         if str_ne content (content_of d) then
           let! result := dict_copy m in
           let! _ := dict_setitem result (lit "content") (JStr content) in
           ret result
         else ret m in
       if truthy (content_of d) then
         let! content := strip_think_value (content_of d) in
         let '(parsed, cleaned) := _parse_xml_tool_calls content in
         let recovered := recover parsed valid_names in
         match parsed, recovered with
         | _ :: _, _ :: _ =>
             let! result := dict_copy m in
             let! _ := dict_setitem result (lit "tool_calls") (JArr recovered) in
             let! _ := dict_setitem result (lit "content") (JStr cleaned) in
             ret result
         | _, _ => no_recovery content
         end
       else no_recovery []) h.
Proof.
  unfold normalize_tool_calls, bind at 1, dict_lookup at 1.
  unfold bind at 1, dict_lookup at 1. rewrite Hm. reflexivity.
Qed.

(** The structured branch. *)
Lemma normalize_structured (kept : json) (s : str) :
  truthy (structured_calls d) = true ->
  (forall h', _filter_hallucinated (structured_calls d) valid_names h'
              = (inr kept, h')) ->
  content_of d = JStr s ->
  normalize_tool_calls m valid_names h
  = (inr (fresh_loc h),
     <[fresh_loc h := <[lit "content" := JStr (_strip_think_tags s)]>
                        (<[lit "tool_calls" := kept]> d)]> h).
Proof.
  intros Ht Hf Hc. rewrite normalize_reads, Ht.
  unfold bind at 1. rewrite dict_copy_spec.
  unfold bind at 1. rewrite Hf.
  unfold bind at 1. rewrite dict_setitem_fresh.
  rewrite Hc. unfold bind at 1. simpl strip_think_value. unfold ret at 1.
  unfold bind at 1. rewrite dict_setitem_fresh. reflexivity.
Qed.

(** The branches without structured calls, for a textual content. *)
Lemma normalize_text (s : str) :
  truthy (structured_calls d) = false ->
  content_of d = JStr s ->
  normalize_tool_calls m valid_names h
  = let content := _strip_think_tags s in
    let '(parsed, cleaned) := _parse_xml_tool_calls content in
    match recover parsed valid_names with
    | (_ :: _) as recovered =>
        (inr (fresh_loc h),
         <[fresh_loc h := <[lit "content" := JStr cleaned]>
                            (<[lit "tool_calls" := JArr recovered]> d)]> h)
    | [] =>
        if bool_decide (content = s) then (inr m, h)
        else (inr (fresh_loc h),
              <[fresh_loc h := <[lit "content" := JStr content]> d]> h)
    end.
Proof.
  intros Ht Hc. rewrite normalize_reads, Ht, Hc.
  assert (forall content,
    (if str_ne content (JStr s)
     then let! result := dict_copy m in
          let! _ := dict_setitem result (lit "content") (JStr content) in
          ret result
     else ret m) h
    = if bool_decide (content = s) then (inr m, h)
      else (inr (fresh_loc h),
            <[fresh_loc h := <[lit "content" := JStr content]> d]> h))
    as Hno.
  { intros content. unfold str_ne.
    destruct (bool_decide (content = s)); simpl; [done|].
    unfold bind at 1. rewrite dict_copy_spec.
    unfold bind at 1. by rewrite dict_setitem_fresh. }
  destruct (truthy (JStr s)) eqn:Hts.
  - change (strip_think_value (JStr s)) with (@ret heap _ (_strip_think_tags s)).
    rewrite bind_ret. cbv zeta.
    destruct (_parse_xml_tool_calls (_strip_think_tags s))
      as [parsed cleaned].
    destruct parsed as [|p ps].
    + simpl recover. apply Hno.
    + destruct (recover (p :: ps) valid_names) as [|r rs]; [apply Hno|].
      unfold bind at 1. rewrite dict_copy_spec.
      unfold bind at 1. rewrite dict_setitem_fresh.
      unfold bind at 1. rewrite dict_setitem_fresh. reflexivity.
  - destruct s; [|discriminate Hts]. cbv zeta.
    change (_strip_think_tags []) with (@nil ascii).
    change (_parse_xml_tool_calls []) with (@nil xml_call, @nil ascii).
    apply (Hno []).
Qed.

End AdapterStore.

(** ** The qwen3 adapter: what normalization returns *)

Section AdapterFacts.
Import Qwen3.

Lemma filter_hallucinated_pure (v : json) (vn : gset str) (h : heap) :
  snd (_filter_hallucinated v vn h) = h.
Proof.
  unfold _filter_hallucinated.
  destruct (decide (vn = ∅)); [done|]. by destruct v.
Qed.

Lemma content_of_cases (d : pydict) :
  (exists s, content_of d = JStr s)
  \/ (truthy (content_of d) = true /\ forall s, content_of d <> JStr s).
Proof.
  unfold content_of, py_or.
  destruct (truthy (default (JStr []) (d !! lit "content"))) eqn:Ht;
    [|by left; eexists].
  destruct (default (JStr []) (d !! lit "content")) eqn:Hd;
    try (right; split; [exact Ht|discriminate]).
  left. by eexists.
Qed.

Lemma normalize_illtyped (h : heap) (m : loc) (d : pydict) (vn : gset str) :
  h !! m = Some d ->
  truthy (structured_calls d) = false ->
  truthy (content_of d) = true ->
  (forall s, content_of d <> JStr s) ->
  normalize_tool_calls m vn h = (inl TypeError, h).
Proof.
  intros Hm Ht Hc Hns. rewrite (normalize_reads h m d vn Hm), Ht, Hc.
  unfold bind at 1.
  destruct (content_of d); try done. by destruct (Hns s).
Qed.

(** C10.  [normalize_tool_calls] never mutates its input.  Every dict of
    the store, the input message among them, holds after the call what it
    held before.  When the call returns, either no transform applies and
    it returns the input reference itself, the store untouched; or a
    transform applies and it returns a fresh reference to a shallow copy:
    a new dict that agrees with the input on every key other than
    [content] and [tool_calls]. *)
Theorem normalize_tool_calls_frame
    (h : heap) (m : loc) (d : pydict) (vn : gset str) :
  h !! m = Some d ->
  let res := fst (normalize_tool_calls m vn h) in
  let h' := snd (normalize_tool_calls m vn h) in
  (forall l x, h !! l = Some x -> h' !! l = Some x)
  /\ forall r, res = inr r ->
       (~ transform_applies d vn /\ r = m /\ h' = h)
       \/ (transform_applies d vn /\ h !! r = None
           /\ exists d', h' = <[r := d']> h
                /\ forall k, k <> lit "content" -> k <> lit "tool_calls" ->
                     d' !! k = d !! k).
Proof.
  intros Hm res h'. subst res h'.
  destruct (normalize_tool_calls m vn h) as [res h'] eqn:Hn. simpl.
  pose proof (fresh_loc_free h) as Hfresh.
  assert (forall d' l x, h !! l = Some x -> <[fresh_loc h := d']> h !! l = Some x)
    as Hframe.
  { intros d' l x Hl. rewrite lookup_insert_ne; [done|]. congruence. }
  destruct (truthy (structured_calls d)) eqn:Ht.
  - (* structured calls *)
    rewrite (normalize_reads h m d vn Hm), Ht in Hn.
    unfold bind at 1 in Hn. rewrite (dict_copy_spec h m d Hm) in Hn.
    unfold bind at 1 in Hn.
    pose proof (filter_hallucinated_pure (structured_calls d) vn
                  (<[fresh_loc h := d]> h)) as Hpure.
    destruct (_filter_hallucinated (structured_calls d) vn
                (<[fresh_loc h := d]> h)) as [[e|kept] h1];
      simpl in Hpure; subst h1.
    { injection Hn as <- <-. split; [apply Hframe|discriminate]. }
    unfold bind at 1 in Hn. rewrite dict_setitem_fresh in Hn.
    unfold bind at 1 in Hn.
    destruct (content_of d) as [| | | |s| |];
      try (injection Hn as <- <-; split; [apply Hframe|discriminate]).
    simpl strip_think_value in Hn. unfold ret at 1 in Hn.
    unfold bind at 1 in Hn. rewrite dict_setitem_fresh in Hn.
    injection Hn as <- <-.
    split; [apply Hframe|]. intros r [= <-]. right.
    split; [by left|]. split; [done|]. eexists. split; [reflexivity|].
    intros k Hk1 Hk2. by rewrite !lookup_insert_ne.
  - destruct (content_of_cases d) as [[s Hs]|[Hc Hns]].
    + rewrite (normalize_text h m d vn Hm s Ht Hs) in Hn. cbv zeta in Hn.
      destruct (_parse_xml_tool_calls (_strip_think_tags s))
        as [parsed cleaned] eqn:Hp.
      destruct (recover parsed vn) as [|rc rcs] eqn:Hr.
      * destruct (bool_decide_reflect (_strip_think_tags s = s)) as [He|Hne];
          injection Hn as <- <-.
        -- split; [done|]. intros r [= <-]. left.
           split; [|done]. intros [Hst|[s' [Hs' Happ]]]; [congruence|].
           rewrite Hs in Hs'. injection Hs' as <-.
           rewrite Hp in Happ. simpl in Happ. rewrite Hr in Happ.
           by destruct Happ.
        -- split; [apply Hframe|]. intros r [= <-]. right.
           split; [right; exists s; by auto|]. split; [done|].
           eexists. split; [reflexivity|].
           intros k Hk1 Hk2. by rewrite lookup_insert_ne.
      * injection Hn as <- <-.
        split; [apply Hframe|]. intros r [= <-]. right.
        split.
        { right. exists s. split; [done|]. right.
          rewrite Hp. simpl. by rewrite Hr. }
        split; [done|]. eexists. split; [reflexivity|].
        intros k Hk1 Hk2. by rewrite !lookup_insert_ne.
    + rewrite (normalize_illtyped h m d vn Hm Ht Hc Hns) in Hn.
      injection Hn as <- <-. split; [done|discriminate].
Qed.

End AdapterFacts.

(** A message with prose around one call: the input is kept, the result is
    a copy at a fresh reference that still carries the [role] entry. *)
Lemma normalize_tool_calls_frame_witness :
  let h := Messages.store
             (lit "Let me search. <function=web_search></function> Done.")
             JNull in
  let h' := snd (Qwen3.normalize_tool_calls 1%positive Messages.tools h) in
  fst (Qwen3.normalize_tool_calls 1%positive Messages.tools h) = inr 2%positive
  /\ h' !! 1%positive = h !! 1%positive
  /\ h !! 2%positive = None
  /\ (h' !! 2%positive ≫= fun d => d !! lit "role")
     = Some (JStr (lit "assistant")).
Proof.
  intros h h'.
  assert (h !! 1%positive
          = Some ({[ lit "role" := JStr (lit "assistant");
                     lit "content" :=
                       JStr (lit "Let me search. <function=web_search></function> Done.");
                     lit "tool_calls" := JNull ]} : gmap str json)) as Hm
    by reflexivity.
  destruct (normalize_tool_calls_frame h 1%positive _ Messages.tools Hm)
    as [Hkeep Hres].
  assert (fst (Qwen3.normalize_tool_calls 1%positive Messages.tools h)
          = inr 2%positive) as Hr by (vm_compute; reflexivity).
  split; [exact Hr|]. split; [rewrite Hm; exact (Hkeep _ _ Hm)|].
  split; [reflexivity|].
  destruct (Hres _ Hr) as [[_ [Heq _]]|[_ [_ [d' [Hh' Hcopy]]]]];
    [discriminate Heq|].
  change (h' = <[2%positive := d']> h) in Hh'.
  rewrite Hh', lookup_insert_eq. simpl.
  rewrite Hcopy by (intros H; vm_compute in H; discriminate H).
  reflexivity.
Defined.

(** ** The qwen3 adapter: the tool calls of the result *)

Section AdapterCalls.
Import Qwen3.

Lemma filter_hallucinated_indep (v : json) (vn : gset str) (h h' : heap) :
  fst (_filter_hallucinated v vn h) = fst (_filter_hallucinated v vn h').
Proof.
  unfold _filter_hallucinated.
  destruct (decide (vn = ∅)); [done|]. by destruct v.
Qed.

Lemma filter_hallucinated_kept (v kept : json) (vn : gset str) (h : heap) :
  fst (_filter_hallucinated v vn h) = inr kept ->
  (vn = ∅ /\ kept = v)
  \/ (vn <> ∅ /\ exists calls,
        v = JArr calls
        /\ kept = JArr (List.filter
                          (fun c => match call_name c with
                                    | Some n => bool_decide (n ∈ vn)
                                    | None => false
                                    end) calls)).
Proof.
  unfold _filter_hallucinated.
  destruct (decide (vn = ∅)) as [->|Hne].
  - intros [= <-]. by left.
  - destruct v; try discriminate. intros [= <-]. right. eauto.
Qed.

(** What the dict returned by [normalize_tool_calls] holds under
    [tool_calls]: the filtered structured calls when there are some, else
    the recovered calls when there are some, else what the input held. *)
Lemma normalize_returns
    (h : heap) (m : loc) (d : pydict) (vn : gset str) (r : loc) (d' : pydict) :
  h !! m = Some d ->
  fst (normalize_tool_calls m vn h) = inr r ->
  snd (normalize_tool_calls m vn h) !! r = Some d' ->
  (truthy (structured_calls d) = true
   /\ exists kept,
        fst (_filter_hallucinated (structured_calls d) vn h) = inr kept
        /\ d' !! lit "tool_calls" = Some kept)
  \/ (truthy (structured_calls d) = false
      /\ exists s,
           content_of d = JStr s
           /\ match recover (fst (_parse_xml_tool_calls (_strip_think_tags s)))
                            vn with
              | [] => d' !! lit "tool_calls" = d !! lit "tool_calls"
              | recovered =>
                  d' !! lit "tool_calls" = Some (JArr recovered)
                  /\ d' !! lit "content"
                     = Some (JStr (snd (_parse_xml_tool_calls
                                          (_strip_think_tags s))))
              end).
Proof.
  intros Hm.
  destruct (normalize_tool_calls m vn h) as [res h'] eqn:Hn.
  cbn [fst snd]. intros -> Hd'.
  destruct (truthy (structured_calls d)) eqn:Ht; [left|right];
    (split; [done|]).
  - rewrite (normalize_reads h m d vn Hm), Ht in Hn.
    unfold bind at 1 in Hn. rewrite (dict_copy_spec h m d Hm) in Hn.
    unfold bind at 1 in Hn.
    pose proof (filter_hallucinated_pure (structured_calls d) vn
                  (<[fresh_loc h := d]> h)) as Hpure.
    pose proof (filter_hallucinated_indep (structured_calls d) vn h
                  (<[fresh_loc h := d]> h)) as Hindep.
    destruct (_filter_hallucinated (structured_calls d) vn
                (<[fresh_loc h := d]> h)) as [[e|kept] h1];
      simpl in Hpure, Hindep; subst h1; [discriminate Hn|].
    unfold bind at 1 in Hn. rewrite dict_setitem_fresh in Hn.
    unfold bind at 1 in Hn.
    destruct (content_of d) as [| | | |s| |]; try discriminate Hn.
    simpl strip_think_value in Hn. unfold ret at 1 in Hn.
    unfold bind at 1 in Hn. rewrite dict_setitem_fresh in Hn.
    injection Hn as <- <-. rewrite lookup_insert_eq in Hd'.
    injection Hd' as <-. exists kept. split; [done|].
    rewrite lookup_insert_ne by (intros H; vm_compute in H; discriminate H).
    apply lookup_insert_eq.
  - destruct (content_of_cases d) as [[s Hs]|[Hc Hns]].
    + exists s. split; [done|].
      rewrite (normalize_text h m d vn Hm s Ht Hs) in Hn. cbv zeta in Hn.
      destruct (_parse_xml_tool_calls (_strip_think_tags s))
        as [parsed cleaned] eqn:Hp. simpl fst. simpl snd.
      destruct (recover parsed vn) as [|rc rcs] eqn:Hr.
      * destruct (bool_decide (_strip_think_tags s = s));
          injection Hn as <- <-.
        -- rewrite Hm in Hd'. injection Hd' as <-. reflexivity.
        -- rewrite lookup_insert_eq in Hd'. injection Hd' as <-.
           cbv iota.
           rewrite lookup_insert_ne
             by (intros H; vm_compute in H; discriminate H).
           reflexivity.
      * injection Hn as <- <-. rewrite lookup_insert_eq in Hd'.
        injection Hd' as <-. split.
        -- rewrite lookup_insert_ne
             by (intros H; vm_compute in H; discriminate H).
           apply lookup_insert_eq.
        -- apply lookup_insert_eq.
    + rewrite (normalize_illtyped h m d vn Hm Ht Hc Hns) in Hn.
      discriminate Hn.
Qed.

Lemma no_structured_calls (d : pydict) :
  truthy (structured_calls d) = false -> tool_calls_of d = [].
Proof.
  unfold structured_calls, tool_calls_of, py_or.
  destruct (d !! lit "tool_calls") as [[| | | | |l|]|]; simpl; try done.
  by destruct l.
Qed.

Lemma tool_calls_of_lookup (d d' : pydict) :
  d' !! lit "tool_calls" = d !! lit "tool_calls" ->
  tool_calls_of d' = tool_calls_of d.
Proof. unfold tool_calls_of. by intros ->. Qed.

Lemma dict_get_head (k : str) (v : json) (kv : list (str * json)) :
  dict_get k ((k, v) :: kv) = Some v.
Proof. simpl. by destruct (decide (k = k)). Qed.

Lemma call_name_recovered (c : xml_call) :
  call_name (recovered_call c) = Some (name c).
Proof.
  unfold call_name, recovered_call. rewrite dict_get_head.
  by rewrite dict_get_head.
Qed.

(** C2, as the code has it.  When the caller declares at least one tool,
    or the message carries no structured calls, every entry of the
    normalized tool-call list names a member of the valid-name set: no
    call with a name outside the set survives, structured or recovered. *)
Theorem normalized_names_valid
    (h : heap) (m : loc) (d : pydict) (vn : gset str) (r : loc) (d' : pydict) :
  h !! m = Some d ->
  vn <> ∅ \/ truthy (structured_calls d) = false ->
  fst (normalize_tool_calls m vn h) = inr r ->
  snd (normalize_tool_calls m vn h) !! r = Some d' ->
  forall call, In call (tool_calls_of d') ->
    exists n, call_name call = Some n /\ n ∈ vn.
Proof.
  intros Hm Hvn Hr Hd' call Hin.
  destruct (normalize_returns h m d vn r d' Hm Hr Hd')
    as [[Ht [kept [Hk Hl]]]|[Ht [s [Hs Hrec]]]].
  - destruct Hvn as [Hvn|Hf]; [|congruence].
    apply filter_hallucinated_kept in Hk as [[? _]|[_ [calls [_ ->]]]]; [done|].
    unfold tool_calls_of in Hin. rewrite Hl in Hin.
    apply filter_In in Hin as [_ Hp].
    destruct (call_name call) as [n|]; [|done].
    exists n. split; [done|]. by apply bool_decide_eq_true in Hp.
  - destruct (recover _ vn) as [|rc rcs] eqn:Hrc.
    + rewrite (tool_calls_of_lookup _ _ Hrec), (no_structured_calls d Ht) in Hin.
      destruct Hin.
    + destruct Hrec as [Hl _].
      unfold tool_calls_of in Hin. rewrite Hl, <- Hrc in Hin.
      unfold recover in Hin. apply in_map_iff in Hin as [c [<- Hc]].
      apply filter_In in Hc as [_ Hp].
      exists (name c). split; [apply call_name_recovered|].
      by apply bool_decide_eq_true in Hp.
Qed.

Lemma recover_empty_set (parsed : list xml_call) : recover parsed ∅ = [].
Proof.
  unfold recover. induction parsed as [|c parsed IH]; [done|].
  simpl. rewrite bool_decide_eq_false_2 by set_solver. exact IH.
Qed.

(** C3, as the code has it.  With an empty valid-name set the structured
    calls of a message all survive normalization, unchanged; calls written
    in the content are not recovered, since none names a member of the
    empty set, and the result carries no tool calls. *)
Theorem empty_valid_set
    (h : heap) (m : loc) (d : pydict) (r : loc) (d' : pydict) :
  h !! m = Some d ->
  fst (normalize_tool_calls m ∅ h) = inr r ->
  snd (normalize_tool_calls m ∅ h) !! r = Some d' ->
  if truthy (structured_calls d)
  then d' !! lit "tool_calls" = Some (structured_calls d)
  else tool_calls_of d' = [].
Proof.
  intros Hm Hr Hd'.
  destruct (normalize_returns h m d ∅ r d' Hm Hr Hd')
    as [[Ht [kept [Hk Hl]]]|[Ht [s [Hs Hrec]]]]; rewrite Ht.
  - apply filter_hallucinated_kept in Hk as [[_ ->]|[Hne _]]; done.
  - rewrite recover_empty_set in Hrec.
    by rewrite (tool_calls_of_lookup _ _ Hrec), (no_structured_calls d Ht).
Qed.

End AdapterCalls.

(** ** The qwen3 adapter: identifiers of recovered calls *)

Section RecoveredIds.
Import Qwen3.

Lemma lit_inj (a b : string) : lit a = lit b -> a = b.
Proof.
  unfold lit. intros H.
  rewrite <- (string_of_list_ascii_of_string a),
          <- (string_of_list_ascii_of_string b).
  by rewrite H.
Qed.

Lemma str_of_nat_inj (i j : nat) : str_of_nat i = str_of_nat j -> i = j.
Proof.
  unfold str_of_nat. intros H%lit_inj.
  assert (Nat.to_uint i = Nat.to_uint j) as Hu.
  { apply (f_equal NilEmpty.uint_of_string) in H.
    rewrite !NilEmpty.usu in H. by injection H. }
  rewrite <- (DecimalNat.Unsigned.of_to i), <- (DecimalNat.Unsigned.of_to j).
  by rewrite Hu.
Qed.

Lemma recovered_ai_calls_from (parsed : list xml_call) (acc : list json) :
  fold_left (fun tool_calls call => tool_calls ++ [recovered_ai_call (length tool_calls) call])
            parsed acc
  = acc ++ imap (fun i => recovered_ai_call (length acc + i)) parsed.
Proof.
  revert acc. induction parsed as [|c parsed IH]; intros acc; simpl.
  - by rewrite app_nil_r.
  - rewrite IH, <- app_assoc. simpl. rewrite Nat.add_0_r.
    do 2 f_equal. apply imap_ext. intros i x _. simpl.
    rewrite length_app. simpl. f_equal. lia.
Qed.

Lemma recovered_ai_calls_imap (parsed : list xml_call) :
  recovered_ai_calls parsed = imap recovered_ai_call parsed.
Proof. apply (recovered_ai_calls_from parsed []). Qed.

Lemma call_id_recovered_ai_call (i : nat) (c : xml_call) :
  call_id (recovered_ai_call i c) = Some (JStr (lit "recovered_" ++ str_of_nat i)).
Proof. reflexivity. Qed.

(** C8, as the code has it.  On the agent path every call recovered from
    content is given the id [recovered_<i>], [i] its position among the
    recovered calls: a locally generated string, distinct from the ids of
    the other calls of the same response and the same from one request to
    the next.  On the proxy path the recovered calls carry a name and
    arguments and no id. *)
Theorem recovered_call_ids
    (message : AIMessage) (c : str) (parsed : list xml_call) (cleaned : str)
    (vn : gset str) :
  tool_calls message = [] ->
  content message = JStr c ->
  c <> [] ->
  _parse_xml_tool_calls (_strip_think_tags c) = (parsed, cleaned) ->
  parsed <> [] ->
  exists calls,
    normalize_ai_message message
    = inr (NewMessage {| content := JStr cleaned; tool_calls := calls |})
    /\ length calls = length parsed
    /\ (forall i call, calls !! i = Some call ->
          call_id call = Some (JStr (lit "recovered_" ++ str_of_nat i)))
    /\ NoDup (map call_id calls)
    /\ (forall call, In call (recover parsed vn) -> call_id call = None).
Proof.
  intros Htc Hc Hne Hp Hparsed.
  exists (imap recovered_ai_call parsed). repeat split.
  - unfold normalize_ai_message. rewrite Htc, Hc.
    destruct c as [|a c]; [done|].
    change (py_or (JStr (a :: c)) (JStr [])) with (JStr (a :: c)).
    change (negb (truthy (JStr (a :: c)))) with false. cbv iota.
    rewrite Hp. destruct parsed; [done|].
    by rewrite recovered_ai_calls_imap.
  - apply length_imap.
  - intros i call. rewrite list_lookup_imap.
    destruct (parsed !! i); [|done]. by intros [= <-].
  - apply NoDup_alt. intros i j x.
    rewrite !list_lookup_fmap, !list_lookup_imap.
    destruct (parsed !! i); [|done]. destruct (parsed !! j); [|done].
    simpl. intros [= <-] [= H]. symmetry. by apply str_of_nat_inj.
  - intros call Hin. unfold recover in Hin.
    apply in_map_iff in Hin as [x [<- _]]. reflexivity.
Qed.

End RecoveredIds.

(** ** The qwen3 adapter: examples *)

(** C2 fails as stated when the caller declares no tools: a structured call
    with an invented name comes out of normalization as it went in, though
    its name is in no valid-name set. *)
Lemma names_valid_counterexample :
  fst (Qwen3.normalize_tool_calls 1%positive ∅
         (Messages.store [] (JArr [Messages.structured "invented_tool"])))
  = inr 2%positive
  /\ (tool_calls_of
        <$> snd (Qwen3.normalize_tool_calls 1%positive ∅
                   (Messages.store [] (JArr [Messages.structured "invented_tool"])))
            !! 2%positive)
     = Some [Messages.structured "invented_tool"]
  /\ Qwen3.call_name (Messages.structured "invented_tool")
     = Some (lit "invented_tool")
  /\ lit "invented_tool" ∉ (∅ : gset str).
Proof. repeat split; try reflexivity. set_solver. Qed.

(** With two tools declared, the invented call is dropped and the call that
    survives names a declared tool. *)
Lemma normalized_names_valid_witness :
  exists n,
    Qwen3.call_name (Messages.structured "web_search") = Some n
    /\ n ∈ Messages.tools.
Proof.
  apply (normalized_names_valid
           (Messages.store [] (JArr [Messages.structured "web_search";
                                     Messages.structured "invented_tool"]))
           1%positive
           (Messages.message [] (JArr [Messages.structured "web_search";
                                       Messages.structured "invented_tool"]))
           Messages.tools 2%positive
           (<[lit "content" := JStr []]>
              (<[lit "tool_calls" := JArr [Messages.structured "web_search"]]>
                 (Messages.message [] (JArr [Messages.structured "web_search";
                                             Messages.structured "invented_tool"]))))).
  - reflexivity.
  - left. intros H. assert (lit "web_search" ∈ Messages.tools) as Hin
      by (unfold Messages.tools; set_solver).
    rewrite H in Hin. set_solver.
  - reflexivity.
  - reflexivity.
  - left. reflexivity.
Defined.

(** C3 fails as stated for calls written in the content: with no tool
    declared, the call in [one_call] is parsed but not recovered; the
    message is returned as it came, without tool calls. *)
Lemma empty_valid_set_counterexample :
  map Qwen3.name (fst (Qwen3._parse_xml_tool_calls Messages.one_call))
  = [lit "web_search"]
  /\ Qwen3.normalize_tool_calls 1%positive ∅
       (Messages.store Messages.one_call JNull)
     = (inr 1%positive, Messages.store Messages.one_call JNull)
  /\ tool_calls_of (Messages.message Messages.one_call JNull) = [].
Proof. repeat split; reflexivity. Qed.

(** With no tool declared, a structured call survives whatever its name. *)
Lemma empty_valid_set_witness :
  (<[lit "content" := JStr []]>
     (<[lit "tool_calls" := JArr [Messages.structured "invented_tool"]]>
        (Messages.message [] (JArr [Messages.structured "invented_tool"]))))
    !! lit "tool_calls"
  = Some (JArr [Messages.structured "invented_tool"]).
Proof.
  apply (empty_valid_set
           (Messages.store [] (JArr [Messages.structured "invented_tool"]))
           1%positive
           (Messages.message [] (JArr [Messages.structured "invented_tool"]))
           2%positive); reflexivity.
Defined.

(** C8 fails as stated on the proxy path: the call recovered by
    [normalize_tool_calls] is the dict
    [{"function": {"name": .., "arguments": ..}}], with no id. *)
Lemma recovered_without_id :
  (tool_calls_of
     <$> snd (Qwen3.normalize_tool_calls 1%positive Messages.tools
                (Messages.store Messages.one_call JNull)) !! 2%positive)
  = Some [JObj [(lit "function",
                 JObj [(lit "name", JStr (lit "web_search"));
                       (lit "arguments", JObj [])])]]
  /\ call_id (JObj [(lit "function",
                     JObj [(lit "name", JStr (lit "web_search"));
                           (lit "arguments", JObj [])])])
     = None.
Proof. split; reflexivity. Qed.

(** Two calls recovered on the agent path: ids [recovered_0] and
    [recovered_1]. *)
Lemma recovered_call_ids_witness :
  exists calls,
    Qwen3.normalize_ai_message
      {| Qwen3.content :=
           JStr (lit "<function=web_search></function> then <function=read_file><parameter=path>/a</parameter></function>");
         Qwen3.tool_calls := [] |}
    = inr (Qwen3.NewMessage
             {| Qwen3.content := JStr (lit "then");
                Qwen3.tool_calls := calls |})
    /\ length calls = 2
    /\ (forall i call, calls !! i = Some call ->
          call_id call = Some (JStr (lit "recovered_" ++ str_of_nat i)))
    /\ NoDup (map call_id calls)
    /\ (forall call,
          In call (Qwen3.recover
                     [ {| Qwen3.name := lit "web_search";
                          Qwen3.arguments := [] |};
                       {| Qwen3.name := lit "read_file";
                          Qwen3.arguments := [(lit "path", JStr (lit "/a"))] |} ]
                     Messages.tools) ->
          call_id call = None).
Proof.
  apply (recovered_call_ids
           {| Qwen3.content :=
                JStr (lit "<function=web_search></function> then <function=read_file><parameter=path>/a</parameter></function>");
              Qwen3.tool_calls := [] |}
           (lit "<function=web_search></function> then <function=read_file><parameter=path>/a</parameter></function>")
           [ {| Qwen3.name := lit "web_search"; Qwen3.arguments := [] |};
             {| Qwen3.name := lit "read_file";
                Qwen3.arguments := [(lit "path", JStr (lit "/a"))] |} ]
           (lit "then") Messages.tools).
  - reflexivity.
  - reflexivity.
  - discriminate.
  - reflexivity.
  - discriminate.
Defined.

(** ** Scanning for a pattern *)

Section ScanFacts.

Lemma eqc_true (a b : ascii) : eqc a b = true <-> a = b.
Proof. apply Ascii.eqb_eq. Qed.




Lemma strip_prefix_eq (p s rest : str) :
  strip_prefix p s = Some rest -> s = p ++ rest.
Proof.
  revert s. induction p as [|a p IH]; intros s; simpl; [by intros [= ->]|].
  destruct s as [|b s]; [done|].
  destruct (eqc a b) eqn:E; [|done]. apply eqc_true in E as ->.
  intros H. by rewrite (IH _ H).
Qed.


Lemma contains_suffix (p a b : str) :
  contains p (a ++ b) = false -> strip_prefix p b = None.
Proof.
  induction a as [|c a IH]; simpl.
  - destruct b; simpl; unfold startswith;
      destruct (strip_prefix p _); simpl; done.
  - intros H. apply orb_false_elim in H as [_ H]. by apply IH.
Qed.






Lemma scan_blind (p : Re.pattern) (s : str) :
  Re.blind p -> forall a b k, Re.scan p a k s = Re.scan p b k s.
Proof.
  intros Hp. induction s as [|c s IH]; intros a b k; [done|].
  simpl. destruct k; [|done]. by rewrite (Hp a b).
Qed.



(** A stretch of text in which the pattern matches nowhere is passed
    through character by character. *)
Lemma scan_miss (p : Re.pattern) (q rest : str) :
  Re.blind p ->
  (forall a b, q = a ++ b -> b <> [] -> p None (b ++ rest) = None) ->
  Re.scan p None 0 (q ++ rest)
  = map Re.Lit q ++ Re.scan p None 0 rest.
Proof.
  intros Hp. induction q as [|c q IH]; intros Hq; [done|].
  change ((c :: q) ++ rest) with (c :: (q ++ rest)).
  pose proof (Hq [] (c :: q) eq_refl ltac:(done)) as H0.
  simpl in H0 |- *. rewrite H0. f_equal. rewrite (scan_blind p _ Hp (Some c) None).
  apply IH. intros a b -> Hb. by apply (Hq (c :: a) b).
Qed.

Section Tagged.
Variable tag : str.
Hypothesis Htag : ~ In "<"%char tag.









End Tagged.

End ScanFacts.

Section ThinkFacts.
Import Qwen3.

Lemma think_blind : Re.blind Re.think_block.
Proof. done. Qed.

(** Content without an opening think tag loses nothing but the whitespace
    at its ends. *)
Lemma strip_think_tags_plain (raw : str) :
  contains (lit "<think>") raw = false ->
  _strip_think_tags raw = strip raw.
Proof.
  intros H. unfold _strip_think_tags, Re.sub, _THINK_BLOCK. f_equal.
  rewrite <- (app_nil_r raw) at 1.
  rewrite (scan_miss _ raw [] think_blind).
  - rewrite app_nil_r. clear H.
    induction raw as [|c raw IH]; [done|]. simpl. by rewrite IH.
  - intros a b -> Hb. rewrite app_nil_r. unfold Re.think_block.
    by rewrite (contains_suffix _ _ _ H).
Qed.

End ThinkFacts.


(** ** The qwen3 adapter: recovery of Hermes markup *)

Section Recovery.
Import Qwen3.









(** When the trimmed keys of a block are pairwise distinct, its arguments
    are the keys and values in the order written. *)
Lemma arguments_of_distinct (params : list Markup.element) :
  NoDup (map (fun '(key, _, _) => strip key) params) ->
  arguments_of params
  = map (fun '(key, value, _) => (strip key, JStr value)) params.
Proof.
  unfold arguments_of.
  assert (forall (acc : list (str * json)),
    NoDup (map fst acc ++ map (fun '(key, _, _) => strip key) params) ->
    fold_left (fun args '(key, value, _) => dict_set (strip key) (JStr value) args)
              params acc
    = acc ++ map (fun '(key, value, _) => (strip key, JStr value)) params)
    as Hgen.
  { induction params as [|[[k v] f] params IH]; intros acc Hnd; simpl.
    - by rewrite app_nil_r.
    - assert (dict_set (strip k) (JStr v) acc = acc ++ [(strip k, JStr v)])
        as ->.
      { simpl in Hnd. apply NoDup_app in Hnd as [_ [Hdis _]].
        assert (forall x, In x (map fst acc) -> x <> strip k) as Hfresh.
        { intros x Hx ->. apply (Hdis (strip k)).
          - by apply list_elem_of_In.
          - left. }
        clear -Hfresh. induction acc as [|[k' v'] acc IHacc]; [done|].
        simpl. destruct (decide (strip k = k')) as [<-|_].
        - destruct (Hfresh (strip k)); [by left|done].
        - f_equal. apply IHacc. intros x Hx. apply Hfresh. by right. }
      rewrite IH.
      + by rewrite <- app_assoc.
      + rewrite map_app. simpl. rewrite <- app_assoc. exact Hnd. }
  intros Hnd. apply (Hgen [] Hnd).
Qed.

End Recovery.

